(** * zipwalker: a sequential walker over the records of a ZIP archive

    Shallow embedding of [module/zipwalker.py] (Python 2) and the properties
    of its record parsers and of [Zip.__init__].

    Conventions of the embedding:
    - a Python 2 [str] is a byte string: [list byte];
    - Python integers are unbounded: [Z];
    - an exception is a value of [exn], a computation that may raise is a
      [result];
    - the [zipped_file] dictionary is a [gmap string pyval];
    - the calls to [log_debug] only format and emit text and never raise on
      the values they are given; they are left out, except for the two
      reports at the end of [Zip.__init__], which are the function's
      [report]. *)

From Stdlib Require Import ZArith Lia.
From Stdlib.Strings Require Import Byte.
From stdpp Require Import base option list strings gmap.

Local Open Scope Z_scope.

(** ** Python primitives *)

Module Py.

Abbreviation bytes := (list byte).

(** The exceptions the module can raise: [raise Exception(msg)],
    [struct.error] from [struct.unpack] on a string of the wrong size, and
    [NameError] from loading a name that is bound nowhere. *)
Inductive exn : Type :=
  | PyException (msg : string)
  | StructError
  | NameError (name : string)
  | TypeError.

Inductive result (A : Type) : Type :=
  | OK (a : A)
  | Raise (e : exn).
Arguments OK {A} a.
Arguments Raise {A} e.

Definition bind {A B : Type} (m : result A) (k : A → result B) : result B :=
  match m with
  | OK a => k a
  | Raise e => Raise e
  end.

Notation "x <~ m ;; k" := (bind m (fun x => k))
  (at level 100, m at next level, right associativity,
   format "'[v' x  <~  m  ;;  '/' k ']'").

(** [len(s)] *)
Definition len {A : Type} (s : list A) : Z := Z.of_nat (length s).

(** [s[a:b]] for non-negative [a] and [b] (the module never slices with a
    negative index): the elements from [a] up to, not including, [b], as far
    as [s] has them.  Slicing never raises. *)
Definition slice {A : Type} (s : list A) (a b : Z) : list A :=
  take (Z.to_nat (b - a)) (drop (Z.to_nat a) s).

(** [s[a:]] *)
Definition slice_from {A : Type} (s : list A) (a : Z) : list A :=
  drop (Z.to_nat a) s.

Definition byte_val (b : byte) : Z := Z.of_N (Byte.to_N b).

(** Little-endian value of a byte string. *)
Fixpoint le_value (s : bytes) : Z :=
  match s with
  | [] => 0
  | b :: s' => Z.lor (byte_val b) (Z.shiftl (le_value s') 8)
  end.

(** [struct.unpack('<H', s)[0]]: [s] must hold exactly 2 bytes. *)
Definition unpack_H (s : bytes) : result Z :=
  match s with
  | [_; _] => OK (le_value s)
  | _ => Raise StructError
  end.

(** [struct.unpack('<I', s)[0]]: [s] must hold exactly 4 bytes. *)
Definition unpack_I (s : bytes) : result Z :=
  match s with
  | [_; _; _; _] => OK (le_value s)
  | _ => Raise StructError
  end.

(** [s == t] on byte strings. *)
Fixpoint bytes_eqb (s t : bytes) : bool :=
  match s, t with
  | [], [] => true
  | a :: s', b :: t' => Byte.eqb a b && bytes_eqb s' t'
  | _, _ => false
  end.

End Py.
Import Py.

(** ** The record parsers *)

(** The four magic values the module compares signatures with. *)
Definition sig_local_header : bytes := [x50; x4b; x03; x04].
Definition sig_data_descriptor : bytes := [x50; x4b; x07; x08].
Definition sig_central_header : bytes := [x50; x4b; x01; x02].
Definition sig_central_end : bytes := [x50; x4b; x05; x06].

(** [class ZipLocalHeader]; [init] is its [__init__]. *)
Module ZipLocalHeader.

Record t : Type := mk {
  signature : bytes;
  version : Z;
  flag : Z;
  compression_method : Z;
  last_modify_time : Z;
  last_modify_date : Z;
  crc32 : Z;
  compressed_size : Z;
  uncompressed_size : Z;
  filename_length : Z;
  extra_field_length : Z;
  filename : option bytes;
  extra_field : option bytes;
  encrypted : bool;
  length : Z
}.

Definition init (data : bytes) : result t :=
  let signature := slice data 0x00 0x04 in
  if negb (bytes_eqb signature sig_local_header)
  then Raise (PyException "LocalHeader::Signature Invalid")
  else
    version <~ unpack_H (slice data 0x04 0x06) ;;
    flag <~ unpack_H (slice data 0x06 0x08) ;;
    compression_method <~ unpack_H (slice data 0x08 0x0A) ;;
    let encrypted := negb (Z.land flag 0x01 =? 0) in
    last_modify_time <~ unpack_H (slice data 0x0A 0x0C) ;;
    last_modify_date <~ unpack_H (slice data 0x0C 0x0E) ;;
    crc32 <~ unpack_I (slice data 0x0E 0x12) ;;
    compressed_size <~ unpack_I (slice data 0x12 0x16) ;;
    uncompressed_size <~ unpack_I (slice data 0x16 0x1A) ;;
    filename_length <~ unpack_H (slice data 0x1A 0x1C) ;;
    extra_field_length <~ unpack_H (slice data 0x1C 0x1E) ;;
    let filename :=
      if 0 <? filename_length
      then Some (slice data 0x1E (0x1E + filename_length))
      else None in
    let pointer := 0x1E + filename_length in
    let extra_field :=
      if 0 <? extra_field_length
      then Some (slice data pointer (pointer + extra_field_length))
      else None in
    OK (mk signature version flag compression_method last_modify_time
           last_modify_date crc32 compressed_size uncompressed_size
           filename_length extra_field_length filename extra_field
           encrypted (pointer + extra_field_length)).

End ZipLocalHeader.

(** [class CentralDirectoryHeader] *)
Module CentralDirectoryHeader.

Record t : Type := mk {
  signature : bytes;
  version_made_by : Z;
  version_needed_to_extract : Z;
  flag : Z;
  compression_method : Z;
  last_modify_time : Z;
  last_modify_date : Z;
  crc32 : Z;
  compressed_size : Z;
  uncompressed_size : Z;
  filename_length : Z;
  extra_field_length : Z;
  comment_length : Z;
  disk_number_start : Z;
  internal_file_attributes : Z;
  external_file_attributes : Z;
  local_header_offset : Z;
  filename : option bytes;
  extra_field : option bytes;
  comment : option bytes;
  length : Z
}.

Definition init (data : bytes) : result t :=
  let signature := slice data 0x00 0x04 in
  if negb (bytes_eqb signature sig_central_header)
  then Raise (PyException "CentralDirectoryHeader::Signature Invalid")
  else
    version_made_by <~ unpack_H (slice data 0x04 0x06) ;;
    version_needed_to_extract <~ unpack_H (slice data 0x06 0x08) ;;
    flag <~ unpack_H (slice data 0x08 0x0A) ;;
    compression_method <~ unpack_H (slice data 0x0A 0x0C) ;;
    last_modify_time <~ unpack_H (slice data 0x0C 0x0E) ;;
    last_modify_date <~ unpack_H (slice data 0x0E 0x10) ;;
    crc32 <~ unpack_I (slice data 0x10 0x14) ;;
    compressed_size <~ unpack_I (slice data 0x14 0x18) ;;
    uncompressed_size <~ unpack_I (slice data 0x18 0x1C) ;;
    filename_length <~ unpack_H (slice data 0x1C 0x1E) ;;
    extra_field_length <~ unpack_H (slice data 0x1E 0x20) ;;
    comment_length <~ unpack_H (slice data 0x20 0x22) ;;
    disk_number_start <~ unpack_H (slice data 0x22 0x24) ;;
    internal_file_attributes <~ unpack_H (slice data 0x24 0x26) ;;
    external_file_attributes <~ unpack_I (slice data 0x26 0x2A) ;;
    local_header_offset <~ unpack_I (slice data 0x2A 0x2E) ;;
    let filename :=
      if 0 <? filename_length
      then Some (slice data 0x2E (0x2E + filename_length))
      else None in
    let pointer := 0x2E + filename_length in
    let extra_field :=
      if 0 <? extra_field_length
      then Some (slice data pointer (pointer + extra_field_length))
      else None in
    let pointer := pointer + extra_field_length in
    let comment :=
      if 0 <? comment_length
      then Some (slice data pointer (pointer + comment_length))
      else None in
    OK (mk signature version_made_by version_needed_to_extract flag
           compression_method last_modify_time last_modify_date crc32
           compressed_size uncompressed_size filename_length
           extra_field_length comment_length disk_number_start
           internal_file_attributes external_file_attributes
           local_header_offset filename extra_field comment
           (pointer + comment_length)).

End CentralDirectoryHeader.

(** ** Values and name lookup *)

(** The values a [zipped_file] dictionary or a local variable holds.
    [VObject] stands for an object the model does not look into (a module,
    a function, a class instance). *)
Inductive pyval : Type :=
  | VInt (n : Z)
  | VBytes (s : bytes)
  | VHeader (h : ZipLocalHeader.t)
  | VObject.

(** The names bound at module level in [zipwalker.py], and the built-in
    names the module uses. *)
Definition module_names : list string :=
  ["os"; "struct"; "logging"; "Logger"; "init_logging"; "log_debug";
   "log_warn"; "log_error"; "ZipLocalHeader"; "CentralDirectoryHeader";
   "CentralDirectoryEnd"; "Zip";
   "len"; "hex"; "open"; "list"; "dict"; "Exception"; "True"; "False"; "None"].

(** Loading a name inside a function: the function's local variables
    first, then the module's and the built-in names; [NameError] when the
    name is bound in none of them. *)
Definition load_name (locals : gmap string pyval) (name : string) : result pyval :=
  match locals !! name with
  | Some v => OK v
  | None =>
      if bool_decide (name ∈ module_names) then OK VObject
      else Raise (NameError name)
  end.

Definition as_int (v : pyval) : result Z :=
  match v with
  | VInt n => OK n
  | _ => Raise TypeError
  end.

(** [len(v)] *)
Definition py_len (v : pyval) : result Z :=
  match v with
  | VBytes s => OK (len s)
  | _ => Raise TypeError
  end.

(** [class CentralDirectoryEnd] *)
Module CentralDirectoryEnd.

Record t : Type := mk {
  signature : bytes;
  number_this_disk : Z;
  central_directory_start_disk : Z;
  number_central_directory_entries : Z;
  number_file_entries : Z;
  central_directory_size : Z;
  central_directory_offset : Z;
  zip_comment_length : Z;
  zip_comment : option bytes;
  length : Z
}.

(** The local variables of [__init__]: its two parameters. *)
Definition locals (data : bytes) : gmap string pyval :=
  <["data" := VBytes data]> (<["self" := VObject]> ∅).

Definition init (data : bytes) : result t :=
  let signature := slice data 0x00 0x04 in
  if negb (bytes_eqb signature sig_central_end)
  then Raise (PyException "CentralDirectoryEnd::Signature Invalid")
  else
    number_this_disk <~ unpack_H (slice data 0x04 0x06) ;;
    central_directory_start_disk <~ unpack_H (slice data 0x06 0x08) ;;
    number_central_directory_entries <~ unpack_H (slice data 0x08 0x0A) ;;
    number_file_entries <~ unpack_H (slice data 0x0A 0x0C) ;;
    central_directory_size <~ unpack_I (slice data 0x0C 0x10) ;;
    central_directory_offset <~ unpack_I (slice data 0x10 0x14) ;;
    zip_comment_length <~ unpack_H (slice data 0x14 0x16) ;;
    zip_comment <~
      (if 0 <? zip_comment_length
       then
         (* [data[0x16:0x16+zip_comment_length]]: the bare name
            [zip_comment_length], not the attribute of [self] *)
         v <~ load_name (locals data) "zip_comment_length" ;;
         n <~ as_int v ;;
         OK (Some (slice data 0x16 (0x16 + n)))
       else OK None) ;;
    OK (mk signature number_this_disk central_directory_start_disk
           number_central_directory_entries number_file_entries
           central_directory_size central_directory_offset
           zip_comment_length zip_comment (0x16 + zip_comment_length)).

End CentralDirectoryEnd.

(** ** [class Zip]: the walker *)

Record Zip : Type := mkZip {
  data : bytes;
  zipped_files : list (gmap string pyval);
  central_directory_headers : list CentralDirectoryHeader.t;
  central_directory_end : option CentralDirectoryEnd.t
}.

(** The first half of one iteration of the first loop: the
    local header and the payload behind it.  Returns the dictionary and
    the pointer behind the payload. *)
Definition read_entry (data : bytes) (pointer : Z)
  : result (gmap string pyval * Z) :=
  localheader <~ ZipLocalHeader.init (slice_from data pointer) ;;
  let zipped_file : gmap string pyval := <["localheader" := VHeader localheader]> ∅ in
  let pointer := pointer + ZipLocalHeader.length localheader in
  let filedata :=
    slice data pointer (pointer + ZipLocalHeader.compressed_size localheader) in
  let zipped_file := <["filedata" := VBytes filedata]> zipped_file in
  let pointer := pointer + ZipLocalHeader.compressed_size localheader in
  OK (zipped_file, pointer).

(** The second half: the signature behind the payload, and the
    data descriptor when that signature announces one.  Returns the
    dictionary, the pointer and the signature found at the pointer. *)
Definition data_descriptor (data : bytes) (pointer : Z)
    (zipped_file : gmap string pyval)
  : result (gmap string pyval * Z * bytes) :=
  let signature := slice data pointer (pointer + 0x04) in
  if bytes_eqb signature sig_data_descriptor
  then
    crc32 <~ unpack_I (slice data (pointer + 0x04) (pointer + 0x08)) ;;
    let zipped_file := <["crc32" := VInt crc32]> zipped_file in
    compressedsize <~ unpack_I (slice data (pointer + 0x08) (pointer + 0x0C)) ;;
    let zipped_file := <["compressedsize" := VInt compressedsize]> zipped_file in
    uncompressedsize <~ unpack_I (slice data (pointer + 0x0C) (pointer + 0x10)) ;;
    let zipped_file := <["uncompressedsize" := VInt uncompressedsize]> zipped_file in
    let pointer := pointer + 16 in
    let signature := slice data pointer (pointer + 0x04) in
    OK (zipped_file, pointer, signature)
  else OK (zipped_file, pointer, signature).

(** One iteration of the first loop, up to [self.zipped_files.append]. *)
Definition local_entry (data : bytes) (pointer : Z)
  : result (gmap string pyval * Z * bytes) :=
  r <~ read_entry data pointer ;;
  data_descriptor data r.2 r.1.

(** The first [while True] loop.  [None]: the fuel ran out. *)
Fixpoint local_loop (fuel : nat) (self : Zip) (pointer : Z)
  : option (Zip * result (Z * bytes)) :=
  match fuel with
  | O => None
  | S fuel' =>
      match local_entry (data self) pointer with
      | Raise e => Some (self, Raise e)
      | OK (zipped_file, pointer', signature) =>
          let self' :=
            mkZip (data self) (zipped_files self ++ [zipped_file])
                  (central_directory_headers self) (central_directory_end self) in
          if negb (bytes_eqb signature sig_local_header)
          then Some (self', OK (pointer', signature))
          else local_loop fuel' self' pointer'
      end
  end.

(** The second [while True] loop. *)
Fixpoint central_loop (fuel : nat) (self : Zip) (pointer : Z) (signature : bytes)
  : option (Zip * result (Z * bytes)) :=
  match fuel with
  | O => None
  | S fuel' =>
      if negb (bytes_eqb signature sig_central_header)
      then Some (self, OK (pointer, signature))
      else
        match CentralDirectoryHeader.init (slice_from (data self) pointer) with
        | Raise e => Some (self, Raise e)
        | OK central_directory_header =>
            let self' :=
              mkZip (data self) (zipped_files self)
                    (central_directory_headers self ++ [central_directory_header])
                    (central_directory_end self) in
            let pointer' :=
              pointer + CentralDirectoryHeader.length central_directory_header in
            central_loop fuel' self' pointer'
              (slice (data self) pointer' (pointer' + 0x04))
        end
  end.

(** The end record, when the signature at the pointer announces one. *)
Definition end_record (self : Zip) (pointer : Z) (signature : bytes)
  : Zip * result Z :=
  if bytes_eqb signature sig_central_end
  then
    match CentralDirectoryEnd.init (slice_from (data self) pointer) with
    | Raise e => (self, Raise e)
    | OK e =>
        (mkZip (data self) (zipped_files self) (central_directory_headers self)
               (Some e),
         OK (pointer + CentralDirectoryEnd.length e))
    end
  else (self, OK pointer).

(** What the last statement of [Zip.__init__] reports. *)
Inductive report : Type :=
  | FileEnd (pointer : Z)
  | OverlayData (overlay_length : Z)
  | NoReport.

(** The local variables of [Zip.__init__] when its last statement runs.
    [central_directory_header] is bound when the second loop parsed a
    header. *)
Definition Zip_locals (self : Zip) (pointer : Z) (signature : bytes)
  : gmap string pyval :=
  let always : gmap string pyval :=
    <["self" := VObject]> (<["filename" := VObject]> (<["debug" := VObject]>
    (<["logname" := VObject]> (<["logfile" := VObject]> (<["i" := VObject]>
    (<["pointer" := VInt pointer]> (<["signature" := VBytes signature]>
    (<["zipped_file" := VObject]> ∅)))))))) in
  match central_directory_headers self with
  | [] => always
  | _ :: _ => <["central_directory_header" := VObject]> always
  end.

(** The last statement:
    [if pointer == len(self.data): ... elif pointer < len(data): ...],
    where the [elif] loads the bare name [data]. *)
Definition tail_report (self : Zip) (pointer : Z) (signature : bytes)
  : result report :=
  if pointer =? len (data self)
  then OK (FileEnd pointer)
  else
    v <~ load_name (Zip_locals self pointer signature) "data" ;;
    n <~ py_len v ;;
    if pointer <? n
    then OK (OverlayData (n - pointer))
    else OK NoReport.

(** [Zip.__init__] on the content of the file, with fuel for its loops. *)
Definition walk (fuel : nat) (content : bytes) : option (Zip * result report) :=
  let self := mkZip content [] [] None in
  match local_loop fuel self 0 with
  | None => None
  | Some (self, Raise e) => Some (self, Raise e)
  | Some (self, OK (pointer, signature)) =>
      match central_loop fuel self pointer signature with
      | None => None
      | Some (self, Raise e) => Some (self, Raise e)
      | Some (self, OK (pointer, signature)) =>
          match end_record self pointer signature with
          | (self, Raise e) => Some (self, Raise e)
          | (self, OK pointer) => Some (self, tail_report self pointer signature)
          end
      end
  end.

(** Each loop iteration consumes at least 30 bytes and needs 4 more to go
    on, so [length content] iterations are more than any loop can make. *)
Definition Zip_init (content : bytes) : option (Zip * result report) :=
  walk (S (List.length content)) content.

(** ** Sample archives *)

(** Encoders for writing sample archives down; the walker does not use
    them. *)
Module Sample.

Definition byte_of (n : Z) : byte :=
  default x00 (Byte.of_N (Z.to_N (n mod 256))).

Definition u16 (n : Z) : bytes := [byte_of n; byte_of (n / 256)].

Definition u32 (n : Z) : bytes :=
  [byte_of n; byte_of (n / 256); byte_of (n / 65536); byte_of (n / 16777216)].

(** ["a.txt"] *)
Definition name_a_txt : bytes := [x61; x2e; x74; x78; x74].

Definition payload10 : bytes := [x00; x01; x02; x03; x04; x05; x06; x07; x08; x09].

(** A local header for ["a.txt"], version 20, method 8 (Deflated), sizes
    10 and 20, no extra field, with the given flag. *)
Definition local_header (flag : Z) : bytes :=
  sig_local_header ++ u16 20 ++ u16 flag ++ u16 8 ++ u16 0 ++ u16 0
    ++ u32 0 ++ u32 10 ++ u32 20 ++ u16 5 ++ u16 0 ++ name_a_txt.

(** The central directory header echoing it, local header offset 0. *)
Definition central_header (flag : Z) : bytes :=
  sig_central_header ++ u16 20 ++ u16 20 ++ u16 flag ++ u16 8 ++ u16 0 ++ u16 0
    ++ u32 0 ++ u32 10 ++ u32 20 ++ u16 5 ++ u16 0 ++ u16 0 ++ u16 0 ++ u16 0
    ++ u32 0 ++ u32 0 ++ name_a_txt.

(** An end record for one entry with the given comment. *)
Definition central_end (cd_size cd_offset : Z) (comment : bytes) : bytes :=
  sig_central_end ++ u16 0 ++ u16 0 ++ u16 1 ++ u16 1 ++ u32 cd_size
    ++ u32 cd_offset ++ u16 (len comment) ++ comment.

(** A local header and a central directory header whose variable-length
    fields all have length 0. *)
Definition local_header_bare : bytes :=
  sig_local_header ++ u16 20 ++ u16 0 ++ u16 8 ++ u16 0 ++ u16 0
    ++ u32 0 ++ u32 10 ++ u32 20 ++ u16 0 ++ u16 0.

Definition central_header_bare : bytes :=
  sig_central_header ++ u16 20 ++ u16 20 ++ u16 0 ++ u16 8 ++ u16 0 ++ u16 0
    ++ u32 0 ++ u32 10 ++ u32 20 ++ u16 0 ++ u16 0 ++ u16 0 ++ u16 0 ++ u16 0
    ++ u32 0 ++ u32 0.

(** The bytes of a local header with the given fields, file name and
    extra field, in the layout the ZIP format gives them. *)
Definition encode_local_header
    (version flag method time date crc csize usize : Z)
    (filename extra : bytes) : bytes :=
  (sig_local_header ++ u16 version ++ u16 flag ++ u16 method ++ u16 time
     ++ u16 date ++ u32 crc ++ u32 csize ++ u32 usize
     ++ u16 (len filename) ++ u16 (len extra))
  ++ filename ++ extra.

(** The bytes of a central directory header, likewise. *)
Definition encode_central_header
    (made_by needed flag method time date crc csize usize disk internal
     external offset : Z)
    (filename extra comment : bytes) : bytes :=
  (sig_central_header ++ u16 made_by ++ u16 needed ++ u16 flag ++ u16 method
     ++ u16 time ++ u16 date ++ u32 crc ++ u32 csize ++ u32 usize
     ++ u16 (len filename) ++ u16 (len extra) ++ u16 (len comment)
     ++ u16 disk ++ u16 internal ++ u32 external ++ u32 offset)
  ++ filename ++ extra ++ comment.

(** A string as a parser stores it: no string for the empty one. *)
Definition stored (s : bytes) : option bytes :=
  match s with
  | [] => None
  | _ :: _ => Some s
  end.

(** A data descriptor block. *)
Definition descriptor : bytes :=
  sig_data_descriptor ++ u32 0 ++ u32 10 ++ u32 20.

(** Scenario A: one entry, one central directory header, one end record. *)
Definition scenario_A : bytes :=
  local_header 0 ++ payload10 ++ central_header 0 ++ central_end 51 45 [].

(** Scenario B: A with flag bit 0 set. *)
Definition scenario_B : bytes :=
  local_header 1 ++ payload10 ++ central_header 1 ++ central_end 51 45 [].

(** Scenario C: A with flag bit 3 set and a data descriptor behind the
    payload. *)
Definition scenario_C : bytes :=
  local_header 8 ++ payload10 ++ descriptor ++ central_header 8
    ++ central_end 51 61 [].

(** Scenario D: A with 8 bytes appended. *)
Definition overlay8 : bytes := [xde; xad; xbe; xef; x00; x11; x22; x33].
Definition scenario_D : bytes := scenario_A ++ overlay8.

(** Scenario F: the local header of A cut behind the second byte of the
    file name. *)
Definition scenario_F : bytes := take 32 (local_header 0).

End Sample.

(** ** Editing a header *)

(** A byte with bit 0 set. *)
Definition set_bit0 (b : byte) : byte :=
  let '(_, rest) := Byte.to_bits b in Byte.of_bits (true, rest).

(** The buffer with bit 0 of the flag field of the local header at its
    start set: the flag is the 16-bit little-endian field at offset 6, so
    its bit 0 is bit 0 of the byte at offset 6. *)
Definition set_flag_bit0 (data : bytes) : bytes :=
  alter set_bit0 6%nat data.

(** A header as parsed, with another flag and another [encrypted]. *)
Definition with_flag (h : ZipLocalHeader.t) (flag : Z) (encrypted : bool)
  : ZipLocalHeader.t :=
  ZipLocalHeader.mk (ZipLocalHeader.signature h) (ZipLocalHeader.version h)
    flag (ZipLocalHeader.compression_method h)
    (ZipLocalHeader.last_modify_time h) (ZipLocalHeader.last_modify_date h)
    (ZipLocalHeader.crc32 h) (ZipLocalHeader.compressed_size h)
    (ZipLocalHeader.uncompressed_size h) (ZipLocalHeader.filename_length h)
    (ZipLocalHeader.extra_field_length h) (ZipLocalHeader.filename h)
    (ZipLocalHeader.extra_field h) encrypted (ZipLocalHeader.length h).

(** ** Measures and shapes of what the walk stores *)

(** The sum of [f] over a list. *)
Definition total {A : Type} (f : A → Z) (l : list A) : Z :=
  foldr (λ x acc, f x + acc) 0 l.

(** The bytes the first loop walks over for one stored entry: the header,
    the payload as the header declares it, and the 16 bytes of the data
    descriptor when the entry has one. *)
Definition entry_size (zipped_file : gmap string pyval) : Z :=
  match zipped_file !! "localheader" with
  | Some (VHeader h) =>
      ZipLocalHeader.length h + ZipLocalHeader.compressed_size h
      + (if zipped_file !! "crc32" is Some _ then 16 else 0)
  | _ => 0
  end.

Definition end_size (e : option CentralDirectoryEnd.t) : Z :=
  match e with
  | Some e => CentralDirectoryEnd.length e
  | None => 0
  end.

(** The shape of a stored [zipped_file]: a header that carries the magic
    value, a payload no longer than the header's compressed size, and the
    three values of a data descriptor, all of them or none. *)
Definition entry_ok (zipped_file : gmap string pyval) : Prop :=
  ∃ (h : ZipLocalHeader.t) (d : bytes),
    zipped_file !! "localheader" = Some (VHeader h)
    ∧ ZipLocalHeader.signature h = sig_local_header
    ∧ zipped_file !! "filedata" = Some (VBytes d)
    ∧ len d ≤ ZipLocalHeader.compressed_size h
    ∧ ((zipped_file !! "crc32" = None
        ∧ zipped_file !! "compressedsize" = None
        ∧ zipped_file !! "uncompressedsize" = None)
       ∨ (∃ a b c : Z,
            zipped_file !! "crc32" = Some (VInt a)
            ∧ zipped_file !! "compressedsize" = Some (VInt b)
            ∧ zipped_file !! "uncompressedsize" = Some (VInt c)))
    ∧ dom zipped_file ⊆
        ({["localheader"; "filedata"; "crc32"; "compressedsize";
           "uncompressedsize"]} : gset string).

(** The string a field holds, [None] read as the empty string. *)
Definition field_bytes (o : option bytes) : bytes := default [] o.

(** ** Facts about the primitives *)

Section Primitives.

Lemma bytes_eqb_eq (s t : bytes) : bytes_eqb s t = true ↔ s = t.
Proof.
  revert t. induction s as [|a s IH]; intros [|b t]; simpl; try easy.
  rewrite andb_true_iff, IH. split.
  - intros [Hab ->]. f_equal. by apply Byte.byte_dec_bl.
  - intros [= -> ->]. split; [by apply Byte.byte_dec_lb | done].
Qed.

Lemma bytes_eqb_refl (s : bytes) : bytes_eqb s s = true.
Proof. by apply bytes_eqb_eq. Qed.

Lemma bytes_eqb_neq (s t : bytes) : bytes_eqb s t = false ↔ s ≠ t.
Proof.
  rewrite <- bytes_eqb_eq. destruct (bytes_eqb s t); split; congruence.
Qed.

Lemma slice_from_0 {A : Type} (s : list A) : slice_from s 0 = s.
Proof. reflexivity. Qed.

Lemma length_slice_le {A : Type} (s : list A) (a b : Z) :
  0 ≤ a → Z.of_nat (List.length (slice s a b)) ≤ len s - a ∨ slice s a b = [].
Proof.
  intros Ha. unfold slice, len.
  rewrite length_take, length_drop.
  destruct (decide (List.length s ≤ Z.to_nat a)%nat) as [Hle|Hgt].
  - right. rewrite drop_ge by done. by destruct (Z.to_nat (b - a)).
  - left. lia.
Qed.

(** A slice that came out with all [b - a] elements lies inside the
    string. *)
Lemma slice_full_inside {A : Type} (s : list A) (a n : Z) :
  0 ≤ a → 0 < n → Z.of_nat (List.length (slice s a (a + n))) = n →
  a + n ≤ len s.
Proof.
  intros Ha Hn Hlen.
  destruct (length_slice_le s a (a + n) Ha) as [H|H]; [lia|].
  rewrite H in Hlen. simpl in Hlen. lia.
Qed.

Lemma length_slice {A : Type} (s : list A) (a b : Z) :
  0 ≤ a → a ≤ b → b ≤ len s →
  List.length (slice s a b) = Z.to_nat (b - a).
Proof.
  intros Ha Hab Hb. unfold slice, len in *.
  rewrite length_take, length_drop. lia.
Qed.

(** Slicing at [p + a] is slicing the rest behind [p] at [a]. *)
Lemma slice_slice_from {A : Type} (s : list A) (p a b : Z) :
  0 ≤ p → 0 ≤ a →
  slice (slice_from s p) a b = slice s (p + a) (p + b).
Proof.
  intros Hp Ha. unfold slice, slice_from.
  rewrite drop_drop. do 2 f_equal; lia.
Qed.

(** Bytes appended behind the end of a slice do not change it. *)
Lemma slice_app_inside {A : Type} (s t : list A) (a b : Z) :
  0 ≤ a → b ≤ len s → slice (s ++ t) a b = slice s a b.
Proof.
  intros Ha Hb. unfold slice, len in *.
  destruct (decide (a ≤ b)) as [Hab|Hab].
  - rewrite drop_app_le by lia. rewrite take_app_le; [done|].
    rewrite length_drop. lia.
  - replace (Z.to_nat (b - a)) with 0%nat by lia. by rewrite !take_0.
Qed.

Lemma byte_val_bounds (b : byte) : 0 ≤ byte_val b < 256.
Proof.
  unfold byte_val. pose proof (Byte.to_N_bounded b). lia.
Qed.

Lemma le_value_nonneg (s : bytes) : 0 ≤ le_value s.
Proof.
  induction s as [|b s IH]; simpl; [done|].
  apply Z.lor_nonneg. split; [apply byte_val_bounds|].
  by apply Z.shiftl_nonneg.
Qed.

Lemma unpack_H_OK (s : bytes) (v : Z) :
  unpack_H s = OK v → List.length s = 2%nat ∧ v = le_value s.
Proof.
  destruct s as [|? [|? [|? ?]]]; simpl; intros [=]; by subst.
Qed.

Lemma unpack_I_OK (s : bytes) (v : Z) :
  unpack_I s = OK v → List.length s = 4%nat ∧ v = le_value s.
Proof.
  destruct s as [|? [|? [|? [|? [|? ?]]]]]; simpl; intros [=]; by subst.
Qed.

Lemma unpack_H_length (s : bytes) :
  List.length s = 2%nat → unpack_H s = OK (le_value s).
Proof. by destruct s as [|? [|? [|? ?]]]. Qed.

Lemma unpack_I_length (s : bytes) :
  List.length s = 4%nat → unpack_I s = OK (le_value s).
Proof. by destruct s as [|? [|? [|? [|? [|? ?]]]]]. Qed.

Lemma unpack_H_nonneg (s : bytes) (v : Z) : unpack_H s = OK v → 0 ≤ v.
Proof. intros [_ ->]%unpack_H_OK. apply le_value_nonneg. Qed.

Lemma unpack_I_nonneg (s : bytes) (v : Z) : unpack_I s = OK v → 0 ≤ v.
Proof. intros [_ ->]%unpack_I_OK. apply le_value_nonneg. Qed.

Lemma length_slice_short {A : Type} (s : list A) (a b : Z) :
  0 ≤ a → a ≤ len s → len s ≤ b →
  Z.of_nat (List.length (slice s a b)) = len s - a.
Proof.
  intros Ha Hab Hb. unfold slice, len in *.
  rewrite length_take, length_drop. lia.
Qed.

Lemma unpack_H_short (s : bytes) :
  List.length s ≠ 2%nat → unpack_H s = Raise StructError.
Proof. by destruct s as [|? [|? [|? ?]]]. Qed.

Lemma unpack_I_short (s : bytes) :
  List.length s ≠ 4%nat → unpack_I s = Raise StructError.
Proof. by destruct s as [|? [|? [|? [|? [|? ?]]]]]. Qed.

(** A 4-byte read that does not fit in the buffer raises. *)
Lemma unpack_I_slice_short (data : bytes) (a b : Z) :
  0 ≤ a → b = a + 4 → len data < b →
  unpack_I (slice data a b) = Raise StructError.
Proof.
  intros Ha -> Hb. apply unpack_I_short.
  destruct (decide (a ≤ len data)) as [Hle|Hgt].
  - pose proof (length_slice_short data a (a + 4)). lia.
  - destruct (length_slice_le data a (a + 4) Ha) as [H|H]; [lia|].
    by rewrite H.
Qed.

Lemma land_1_testbit (x : Z) : Z.land x 1 = Z.b2z (Z.testbit x 0).
Proof.
  change 1 with (Z.ones 1). rewrite Z.land_ones by lia.
  symmetry. apply Z.bit0_mod.
Qed.

Lemma byte_val_set_bit0 (b : byte) : byte_val (set_bit0 b) = Z.lor (byte_val b) 1.
Proof. by destruct b. Qed.

End Primitives.

(** Inversion of a successful sequence of reads. *)
Ltac inv_bind H :=
  repeat match type of H with
  | bind ?m _ = OK _ =>
      let E := fresh "E" in
      destruct m eqn:E; cbn [bind] in H; [|discriminate H]
  end.

(** ** Facts about the record parsers *)

Section Parsers.

(** What a successful [ZipLocalHeader] was read from. *)
Lemma local_header_OK (data : bytes) (h : ZipLocalHeader.t) :
  ZipLocalHeader.init data = OK h →
  slice data 0 4 = sig_local_header
  ∧ ZipLocalHeader.signature h = slice data 0 4
  ∧ unpack_H (slice data 6 8) = OK (ZipLocalHeader.flag h)
  ∧ unpack_I (slice data 18 22) = OK (ZipLocalHeader.compressed_size h)
  ∧ unpack_H (slice data 26 28) = OK (ZipLocalHeader.filename_length h)
  ∧ unpack_H (slice data 28 30) = OK (ZipLocalHeader.extra_field_length h)
  ∧ ZipLocalHeader.filename h =
      (if 0 <? ZipLocalHeader.filename_length h
       then Some (slice data 30 (30 + ZipLocalHeader.filename_length h))
       else None)
  ∧ ZipLocalHeader.extra_field h =
      (if 0 <? ZipLocalHeader.extra_field_length h
       then Some (slice data (30 + ZipLocalHeader.filename_length h)
                    (30 + ZipLocalHeader.filename_length h
                     + ZipLocalHeader.extra_field_length h))
       else None)
  ∧ ZipLocalHeader.encrypted h = negb (Z.land (ZipLocalHeader.flag h) 1 =? 0)
  ∧ ZipLocalHeader.length h =
      30 + ZipLocalHeader.filename_length h + ZipLocalHeader.extra_field_length h.
Proof.
  unfold ZipLocalHeader.init. intros H.
  destruct (bytes_eqb (slice data 0 4) sig_local_header) eqn:Hsig;
    cbn [negb] in H; [|discriminate H].
  apply bytes_eqb_eq in Hsig.
  inv_bind H. injection H as <-. cbn.
  repeat split; done.
Qed.

Lemma unpack_H_slice (data : bytes) (a b : Z) :
  0 ≤ a → b = a + 2 → b ≤ len data →
  unpack_H (slice data a b) = OK (le_value (slice data a b)).
Proof.
  intros Ha -> Hb. apply unpack_H_length. rewrite length_slice; lia.
Qed.

Lemma unpack_I_slice (data : bytes) (a b : Z) :
  0 ≤ a → b = a + 4 → b ≤ len data →
  unpack_I (slice data a b) = OK (le_value (slice data a b)).
Proof.
  intros Ha -> Hb. apply unpack_I_length. rewrite length_slice; lia.
Qed.

(** With the signature in place and the 30 bytes of the fixed part present,
    [ZipLocalHeader] succeeds, whatever lies behind them. *)
Lemma local_header_complete (data : bytes) :
  slice data 0 4 = sig_local_header → 30 ≤ len data →
  ZipLocalHeader.init data =
    let filename_length := le_value (slice data 26 28) in
    let extra_field_length := le_value (slice data 28 30) in
    OK (ZipLocalHeader.mk (slice data 0 4)
          (le_value (slice data 4 6)) (le_value (slice data 6 8))
          (le_value (slice data 8 10)) (le_value (slice data 10 12))
          (le_value (slice data 12 14)) (le_value (slice data 14 18))
          (le_value (slice data 18 22)) (le_value (slice data 22 26))
          filename_length extra_field_length
          (if 0 <? filename_length
           then Some (slice data 30 (30 + filename_length)) else None)
          (if 0 <? extra_field_length
           then Some (slice data (30 + filename_length)
                        (30 + filename_length + extra_field_length))
           else None)
          (negb (Z.land (le_value (slice data 6 8)) 1 =? 0))
          (30 + filename_length + extra_field_length)).
Proof.
  intros Hsig Hlen. unfold ZipLocalHeader.init.
  rewrite Hsig, bytes_eqb_refl. cbn [negb].
  rewrite !unpack_H_slice, !unpack_I_slice by lia.
  reflexivity.
Qed.

Lemma local_header_signature (data : bytes) :
  slice data 0 4 ≠ sig_local_header →
  ZipLocalHeader.init data = Raise (PyException "LocalHeader::Signature Invalid").
Proof.
  intros H%bytes_eqb_neq. unfold ZipLocalHeader.init. by rewrite H.
Qed.

Lemma central_header_signature (data : bytes) :
  slice data 0 4 ≠ sig_central_header →
  CentralDirectoryHeader.init data =
    Raise (PyException "CentralDirectoryHeader::Signature Invalid").
Proof.
  intros H%bytes_eqb_neq. unfold CentralDirectoryHeader.init. by rewrite H.
Qed.

(** What a successful [CentralDirectoryHeader] was read from. *)
Lemma central_header_OK (data : bytes) (h : CentralDirectoryHeader.t) :
  CentralDirectoryHeader.init data = OK h →
  slice data 0 4 = sig_central_header
  ∧ unpack_H (slice data 28 30) = OK (CentralDirectoryHeader.filename_length h)
  ∧ unpack_H (slice data 30 32) = OK (CentralDirectoryHeader.extra_field_length h)
  ∧ unpack_H (slice data 32 34) = OK (CentralDirectoryHeader.comment_length h)
  ∧ unpack_I (slice data 42 46) = OK (CentralDirectoryHeader.local_header_offset h)
  ∧ CentralDirectoryHeader.length h =
      46 + CentralDirectoryHeader.filename_length h
      + CentralDirectoryHeader.extra_field_length h
      + CentralDirectoryHeader.comment_length h.
Proof.
  unfold CentralDirectoryHeader.init. intros H.
  destruct (bytes_eqb (slice data 0 4) sig_central_header) eqn:Hsig;
    cbn [negb] in H; [|discriminate H].
  apply bytes_eqb_eq in Hsig.
  inv_bind H. injection H as <-. cbn.
  repeat split; done.
Qed.

(** With the signature in place and the 46 bytes of the fixed part present,
    [CentralDirectoryHeader] succeeds; a length field of 0 leaves its
    string unset. *)
Lemma central_header_complete (data : bytes) :
  slice data 0 4 = sig_central_header → 46 ≤ len data →
  ∃ h, CentralDirectoryHeader.init data = OK h
    ∧ CentralDirectoryHeader.filename_length h = le_value (slice data 28 30)
    ∧ CentralDirectoryHeader.extra_field_length h = le_value (slice data 30 32)
    ∧ CentralDirectoryHeader.comment_length h = le_value (slice data 32 34)
    ∧ (CentralDirectoryHeader.filename_length h = 0 →
       CentralDirectoryHeader.filename h = None)
    ∧ (CentralDirectoryHeader.extra_field_length h = 0 →
       CentralDirectoryHeader.extra_field h = None)
    ∧ (CentralDirectoryHeader.comment_length h = 0 →
       CentralDirectoryHeader.comment h = None).
Proof.
  intros Hsig Hlen. unfold CentralDirectoryHeader.init.
  rewrite Hsig, bytes_eqb_refl. cbn [negb].
  rewrite !unpack_H_slice, !unpack_I_slice by lia.
  cbn [bind]. eexists. split; [reflexivity|]. cbn.
  repeat split; by intros ->.
Qed.

Lemma central_end_signature (data : bytes) :
  slice data 0 4 ≠ sig_central_end →
  CentralDirectoryEnd.init data =
    Raise (PyException "CentralDirectoryEnd::Signature Invalid").
Proof.
  intros H%bytes_eqb_neq. unfold CentralDirectoryEnd.init. by rewrite H.
Qed.

(** The bare name [zip_comment_length] is bound nowhere. *)
Lemma load_zip_comment_length (data : bytes) :
  load_name (CentralDirectoryEnd.locals data) "zip_comment_length"
  = Raise (NameError "zip_comment_length").
Proof.
  unfold load_name, CentralDirectoryEnd.locals.
  rewrite !lookup_insert_ne, lookup_empty by done.
  reflexivity.
Qed.

(** An end record with a comment length of 0 is read whole and has
    length 22. *)
Lemma central_end_no_comment (data : bytes) :
  slice data 0 4 = sig_central_end → 22 ≤ len data →
  le_value (slice data 20 22) = 0 →
  ∃ e, CentralDirectoryEnd.init data = OK e
    ∧ CentralDirectoryEnd.zip_comment_length e = 0
    ∧ CentralDirectoryEnd.zip_comment e = None
    ∧ CentralDirectoryEnd.length e = 22.
Proof.
  intros Hsig Hlen H0. unfold CentralDirectoryEnd.init.
  rewrite Hsig, bytes_eqb_refl. cbn [negb].
  rewrite !unpack_H_slice, !unpack_I_slice by lia.
  cbn [bind]. rewrite H0. cbn. eexists. split; [reflexivity|]. by cbn.
Qed.

(** An end record with a comment raises [NameError]. *)
Lemma central_end_comment (data : bytes) :
  slice data 0 4 = sig_central_end → 22 ≤ len data →
  0 < le_value (slice data 20 22) →
  CentralDirectoryEnd.init data = Raise (NameError "zip_comment_length").
Proof.
  intros Hsig Hlen Hpos. unfold CentralDirectoryEnd.init.
  rewrite Hsig, bytes_eqb_refl. cbn [negb].
  rewrite !unpack_H_slice, !unpack_I_slice by lia.
  cbn [bind]. apply Z.ltb_lt in Hpos. rewrite Hpos.
  rewrite load_zip_comment_length. reflexivity.
Qed.

End Parsers.

(** ** Facts about the walker *)

Section Walker.

Lemma read_entry_OK (data : bytes) (p p1 : Z) (zf : gmap string pyval) :
  read_entry data p = OK (zf, p1) →
  ∃ h, ZipLocalHeader.init (slice_from data p) = OK h
    ∧ zf = <["filedata" :=
              VBytes (slice data (p + ZipLocalHeader.length h)
                        (p + ZipLocalHeader.length h
                         + ZipLocalHeader.compressed_size h))]>
             (<["localheader" := VHeader h]> ∅)
    ∧ p1 = p + ZipLocalHeader.length h + ZipLocalHeader.compressed_size h.
Proof.
  unfold read_entry. intros H. inv_bind H. injection H as <- <-.
  eexists. split; [reflexivity|]. done.
Qed.

(** The header and the payload move the pointer by at least the 30 bytes
    of the fixed part. *)
Lemma read_entry_advance (data : bytes) (p p1 : Z) (zf : gmap string pyval) :
  read_entry data p = OK (zf, p1) → p + 30 ≤ p1.
Proof.
  intros (h & Hh & _ & ->)%read_entry_OK.
  apply local_header_OK in Hh
    as (_ & _ & _ & Hcs & Hfl & Hefl & _ & _ & _ & ->).
  apply unpack_I_nonneg in Hcs. apply unpack_H_nonneg in Hfl, Hefl. lia.
Qed.

Lemma data_descriptor_OK (data : bytes) (p p' : Z) (zf zf' : gmap string pyval)
    (sig : bytes) :
  data_descriptor data p zf = OK (zf', p', sig) →
  (p' = p ∨ p' = p + 16) ∧ sig = slice data p' (p' + 4).
Proof.
  unfold data_descriptor. intros H.
  destruct (bytes_eqb _ _).
  - inv_bind H. injection H as <- <- <-. split; [by right | done].
  - injection H as <- <- <-. split; [by left | done].
Qed.

Lemma local_entry_OK (data : bytes) (p p' : Z) (zf : gmap string pyval)
    (sig : bytes) :
  local_entry data p = OK (zf, p', sig) →
  p + 30 ≤ p' ∧ sig = slice data p' (p' + 4).
Proof.
  unfold local_entry. intros H. inv_bind H. destruct a as [zf1 p1].
  apply read_entry_advance in E.
  apply data_descriptor_OK in H as [Hp ->]. cbn in Hp. split; [lia | done].
Qed.

(** A signature that compares equal to one of the magic values was read
    inside the buffer. *)
Lemma signature_inside (data : bytes) (p : Z) (magic : bytes) :
  0 ≤ p → List.length magic = 4%nat →
  bytes_eqb (slice data p (p + 4)) magic = true → p + 4 ≤ len data.
Proof.
  intros Hp Hm H%bytes_eqb_eq. apply slice_full_inside; [done | lia |].
  rewrite H, Hm. done.
Qed.

(** *** The first loop *)

Lemma local_loop_OK (fuel : nat) (self self' : Zip) (p p' : Z) (sig : bytes) :
  0 ≤ p →
  local_loop fuel self p = Some (self', OK (p', sig)) →
  0 ≤ p' ∧ sig = slice (data self) p' (p' + 4)
  ∧ data self' = data self
  ∧ zipped_files self' ≠ []
  ∧ central_directory_headers self' = central_directory_headers self
  ∧ central_directory_end self' = central_directory_end self.
Proof.
  revert self p. induction fuel as [|fuel IH]; intros self p Hp H; [done|].
  cbn [local_loop] in H.
  destruct (local_entry (data self) p) as [[[zf p1] sig1]|e] eqn:E; [|done].
  apply local_entry_OK in E as [Hp1 ->].
  destruct (negb _).
  - injection H as <- <- <-. cbn. repeat split; try done; try lia.
    by destruct (zipped_files self).
  - apply IH in H; [|lia]. cbn in H.
    destruct H as (? & ? & ? & ? & ? & ?). done.
Qed.

Lemma local_loop_data (fuel : nat) (self self' : Zip) (p : Z)
    (r : result (Z * bytes)) :
  local_loop fuel self p = Some (self', r) → data self' = data self.
Proof.
  revert self p. induction fuel as [|fuel IH]; intros self p H; [done|].
  cbn [local_loop] in H.
  destruct (local_entry (data self) p) as [[[zf p1] sig1]|e]; [|by injection H as <- <-].
  destruct (negb _); [by injection H as <- <-|].
  by apply IH in H.
Qed.

Lemma local_loop_headers (fuel : nat) (self self' : Zip) (p : Z)
    (r : result (Z * bytes)) :
  local_loop fuel self p = Some (self', r) →
  central_directory_headers self' = central_directory_headers self.
Proof.
  revert self p. induction fuel as [|fuel IH]; intros self p H; [done|].
  cbn [local_loop] in H.
  destruct (local_entry (data self) p) as [[[zf p1] sig1]|e]; [|by injection H as <- <-].
  destruct (negb _); [by injection H as <- <-|].
  by apply IH in H.
Qed.

(** The first loop ends: every iteration that goes on has moved the
    pointer by 30 bytes or more and has found 4 bytes behind it. *)
Lemma local_loop_total (fuel : nat) (self : Zip) (p : Z) :
  0 ≤ p → p ≤ len (data self) → len (data self) - p < Z.of_nat fuel →
  ∃ r, local_loop fuel self p = Some r.
Proof.
  revert self p. induction fuel as [|fuel IH]; intros self p Hp Hle Hfuel; [lia|].
  cbn [local_loop].
  destruct (local_entry (data self) p) as [[[zf p1] sig1]|e] eqn:E; [|by eexists].
  apply local_entry_OK in E as [Hp1 ->].
  destruct (bytes_eqb _ _) eqn:Hsig; cbn [negb]; [|by eexists].
  apply signature_inside in Hsig; [|lia|done].
  apply IH; cbn; lia.
Qed.

Lemma local_loop_more_fuel (fuel fuel' : nat) (self : Zip) (p : Z)
    (r : Zip * result (Z * bytes)) :
  (fuel ≤ fuel')%nat →
  local_loop fuel self p = Some r → local_loop fuel' self p = Some r.
Proof.
  revert fuel' self p. induction fuel as [|fuel IH]; intros fuel' self p Hle H; [done|].
  destruct fuel' as [|fuel']; [lia|].
  cbn [local_loop] in *.
  destruct (local_entry (data self) p) as [[[zf p1] sig1]|e]; [|done].
  destruct (negb _); [done|].
  apply IH; [lia | done].
Qed.

(** *** The second loop *)

Lemma central_loop_Some (fuel : nat) (self self' : Zip) (p : Z) (sig : bytes)
    (r : result (Z * bytes)) :
  central_loop fuel self p sig = Some (self', r) →
  data self' = data self
  ∧ zipped_files self' = zipped_files self
  ∧ central_directory_end self' = central_directory_end self.
Proof.
  revert self p sig. induction fuel as [|fuel IH]; intros self p sig H; [done|].
  cbn [central_loop] in H.
  destruct (negb _); [by injection H as <- <-|].
  destruct (CentralDirectoryHeader.init _) as [h|e]; [|by injection H as <- <-].
  by apply IH in H.
Qed.

Lemma central_loop_total (fuel : nat) (self : Zip) (p : Z) :
  0 ≤ p → (0 < fuel)%nat → len (data self) - p < Z.of_nat fuel →
  ∃ r, central_loop fuel self p (slice (data self) p (p + 4)) = Some r.
Proof.
  revert self p. induction fuel as [|fuel IH]; intros self p Hp Hpos Hfuel; [lia|].
  cbn [central_loop].
  destruct (bytes_eqb _ _) eqn:Hsig; cbn [negb]; [|by eexists].
  apply signature_inside in Hsig; [|lia|done].
  destruct (CentralDirectoryHeader.init _) as [h|e] eqn:E; [|by eexists].
  apply central_header_OK in E as (_ & Hfl & Hefl & Hcl & _ & Hlen).
  apply unpack_H_nonneg in Hfl, Hefl, Hcl.
  apply (IH (mkZip _ _ _ _)); cbn; lia.
Qed.

Lemma central_loop_more_fuel (fuel fuel' : nat) (self : Zip) (p : Z)
    (sig : bytes) (r : Zip * result (Z * bytes)) :
  (fuel ≤ fuel')%nat →
  central_loop fuel self p sig = Some r → central_loop fuel' self p sig = Some r.
Proof.
  revert fuel' self p sig.
  induction fuel as [|fuel IH]; intros fuel' self p sig Hle H; [done|].
  destruct fuel' as [|fuel']; [lia|].
  cbn [central_loop] in *.
  destruct (negb _); [done|].
  destruct (CentralDirectoryHeader.init _) as [h|e]; [|done].
  apply IH; [lia | done].
Qed.

Lemma end_record_fields (self self' : Zip) (p : Z) (sig : bytes) (r : result Z) :
  end_record self p sig = (self', r) →
  data self' = data self ∧ zipped_files self' = zipped_files self.
Proof.
  unfold end_record. destruct (bytes_eqb _ _); [|by intros [= <- <-]].
  destruct (CentralDirectoryEnd.init _); by intros [= <- <-].
Qed.

(** *** The whole walk *)

Lemma walk_total (fuel : nat) (content : bytes) :
  (List.length content < fuel)%nat → ∃ r, walk fuel content = Some r.
Proof.
  intros Hfuel. unfold walk.
  destruct (local_loop_total fuel (mkZip content [] [] None) 0)
    as [[self r] Hloc]; cbn; unfold len; try lia.
  rewrite Hloc. destruct r as [[p sig]|e]; [|by eexists].
  pose proof (local_loop_data _ _ _ _ _ Hloc) as Hdata.
  apply local_loop_OK in Hloc as (Hp & -> & _); [|done]. cbn in Hdata.
  cbn [data]. rewrite <- Hdata.
  destruct (central_loop_total fuel self p) as [[self2 r2] Hcen];
    [done | lia | rewrite Hdata; unfold len; lia |].
  rewrite Hcen. destruct r2 as [[p2 sig2]|e]; [|by eexists].
  destruct (end_record self2 p2 sig2) as [self3 [p3|e]]; by eexists.
Qed.

Lemma walk_more_fuel (fuel fuel' : nat) (content : bytes)
    (r : Zip * result report) :
  (fuel ≤ fuel')%nat → walk fuel content = Some r → walk fuel' content = Some r.
Proof.
  intros Hle. unfold walk.
  destruct (local_loop fuel _ 0) as [[self [[p sig]|e]]|] eqn:Hloc; [| |done].
  - rewrite (local_loop_more_fuel _ _ _ _ _ Hle Hloc).
    destruct (central_loop fuel self p sig) as [[self2 r2]|] eqn:Hcen; [|done].
    by rewrite (central_loop_more_fuel _ _ _ _ _ _ Hle Hcen).
  - by rewrite (local_loop_more_fuel _ _ _ _ _ Hle Hloc).
Qed.

End Walker.

(** ** The last statement of [Zip.__init__] *)

Section Overlay.

(** The bare name [data] is bound nowhere in [Zip.__init__]. *)
Lemma load_data (self : Zip) (p : Z) (sig : bytes) :
  load_name (Zip_locals self p sig) "data" = Raise (NameError "data").
Proof.
  unfold load_name, Zip_locals.
  destruct (central_directory_headers self);
    rewrite !lookup_insert_ne, lookup_empty by done; reflexivity.
Qed.

(** Whenever the pointer is not at the end of the buffer, the last
    statement raises [NameError]. *)
Lemma tail_report_not_at_end (self : Zip) (p : Z) (sig : bytes) :
  p ≠ len (data self) → tail_report self p sig = Raise (NameError "data").
Proof.
  intros Hne. unfold tail_report.
  apply Z.eqb_neq in Hne. rewrite Hne, load_data. reflexivity.
Qed.

Lemma tail_report_at_end (self : Zip) (sig : bytes) :
  tail_report self (len (data self)) sig = OK (FileEnd (len (data self))).
Proof. unfold tail_report. by rewrite Z.eqb_refl. Qed.

(** Claim C1.  The walker is to report, at the end, the number of bytes
    behind the archive's end as the overlay length, and appending N bytes to
    a valid archive is to raise that number by N.  On the archive of
    scenario A (118 bytes) the walk ends with the pointer at 118 and reports
    the end of the file.  On the same archive with 8 bytes appended the walk
    reads the same entry, central directory header and end record, and then
    raises [NameError] for the name [data]: no overlay length of 8 is
    computed. *)
Theorem overlay_length_raises_name_error :
  (∃ self, Zip_init Sample.scenario_A = Some (self, OK (FileEnd 118))
           ∧ len (data self) = 118)
  ∧ (∃ self, Zip_init Sample.scenario_D = Some (self, Raise (NameError "data"))
             ∧ len (data self) = 118 + 8
             ∧ List.length (zipped_files self) = 1%nat
             ∧ List.length (central_directory_headers self) = 1%nat
             ∧ is_Some (central_directory_end self)).
Proof.
  split.
  - eexists. split; [vm_compute; reflexivity | reflexivity].
  - eexists. split; [vm_compute; reflexivity |].
    repeat split; try reflexivity. by eexists.
Qed.

End Overlay.

(** ** Reads behind the end of the buffer *)

Section Truncation.

(** Claim C2 as stated fails.  In scenario F the buffer ends 2 bytes behind
    the fixed part, the header declares a file name of 5 bytes, and
    [ZipLocalHeader] raises nothing: it returns a header whose file name is
    the 2 bytes that are there. *)
Lemma truncated_filename_is_shortened :
  len Sample.scenario_F - 30 < le_value (slice Sample.scenario_F 26 28)
  ∧ (∃ h, ZipLocalHeader.init Sample.scenario_F = OK h
        ∧ ZipLocalHeader.filename_length h = 5
        ∧ ZipLocalHeader.filename h = Some [x61; x2e]).
Proof.
  split; [reflexivity|].
  eexists. split; [vm_compute; reflexivity|]. by split.
Qed.

(** Claim C2, amended.  A buffer that holds the local-header signature and
    the whole 30-byte fixed part, and whose declared file name length
    exceeds the bytes behind the fixed part, is parsed without an error:
    the file name is all the bytes behind the fixed part, fewer than
    declared, and [length] is still 30 plus the two declared lengths.  Only
    the fixed-width reads fail on a short buffer: with the signature in
    place and fewer than 30 bytes, [struct.unpack] raises. *)
Theorem local_header_filename_shortened :
  (∀ data : bytes,
     slice data 0 4 = sig_local_header → 30 ≤ len data →
     len data - 30 < le_value (slice data 26 28) →
     ∃ h, ZipLocalHeader.init data = OK h
        ∧ ZipLocalHeader.filename_length h = le_value (slice data 26 28)
        ∧ ZipLocalHeader.filename h = Some (slice_from data 30)
        ∧ len (slice_from data 30) < ZipLocalHeader.filename_length h
        ∧ ZipLocalHeader.length h =
            30 + ZipLocalHeader.filename_length h
            + ZipLocalHeader.extra_field_length h)
  ∧ (∀ data : bytes,
       slice data 0 4 = sig_local_header → len data < 30 →
       ZipLocalHeader.init data = Raise StructError).
Proof.
  split.
  - intros data Hsig Hlen Hfl.
    rewrite (local_header_complete data Hsig Hlen). cbn zeta.
    set (fl := le_value (slice data 26 28)) in *.
    eexists. split; [reflexivity|].
    cbn [ZipLocalHeader.filename_length ZipLocalHeader.filename
         ZipLocalHeader.extra_field_length ZipLocalHeader.length].
    assert ((0 <? fl) = true) as -> by (apply Z.ltb_lt; lia).
    repeat split; try done.
    + f_equal. unfold slice, slice_from. apply take_ge.
      rewrite length_drop. unfold len in *. lia.
    + unfold slice_from, len in *. rewrite length_drop. lia.
  - intros data Hsig Hlen.
    destruct data as [|b0 [|b1 [|b2 [|b3 data]]]]; try discriminate Hsig.
    cbn in Hsig. injection Hsig as -> -> -> ->.
    unfold len in Hlen. simpl List.length in Hlen.
    do 26 (destruct data as [|? data]; [reflexivity|]).
    simpl List.length in Hlen. lia.
Qed.

Lemma local_header_filename_shortened_witness :
  (∃ h, ZipLocalHeader.init Sample.scenario_F = OK h
      ∧ ZipLocalHeader.filename_length h = le_value (slice Sample.scenario_F 26 28)
      ∧ ZipLocalHeader.filename h = Some (slice_from Sample.scenario_F 30)
      ∧ len (slice_from Sample.scenario_F 30) < ZipLocalHeader.filename_length h
      ∧ ZipLocalHeader.length h =
          30 + ZipLocalHeader.filename_length h
          + ZipLocalHeader.extra_field_length h)
  ∧ ZipLocalHeader.init (take 12 Sample.scenario_F) = Raise StructError.
Proof.
  split.
  - apply (proj1 local_header_filename_shortened Sample.scenario_F);
      [reflexivity | by vm_compute | reflexivity].
  - apply (proj2 local_header_filename_shortened (take 12 Sample.scenario_F));
      reflexivity.
Defined.

End Truncation.

(** ** The end record *)

Section EndRecord.

(** Claim C3.  Parsing an end record is to read the 22-byte fixed layout and
    then a comment of the declared length, for a zero and for a non-zero
    comment length.  The record of scenario A, whose comment length is 0,
    is read and has length 22, the bytes it holds.  The same record with
    the 2-byte comment "hi" (24 bytes, comment length field 2) is not read:
    [CentralDirectoryEnd] raises [NameError] for the name
    [zip_comment_length], and so does the walk over the archive that ends
    with it. *)
Theorem central_end_comment_raises_name_error :
  (∃ e, CentralDirectoryEnd.init (Sample.central_end 51 45 []) = OK e
      ∧ CentralDirectoryEnd.zip_comment e = None
      ∧ CentralDirectoryEnd.length e = 22
      ∧ len (Sample.central_end 51 45 []) = 22)
  ∧ len (Sample.central_end 51 45 [x68; x69]) = 22 + 2
  ∧ le_value (slice (Sample.central_end 51 45 [x68; x69]) 20 22) = 2
  ∧ CentralDirectoryEnd.init (Sample.central_end 51 45 [x68; x69])
    = Raise (NameError "zip_comment_length")
  ∧ (∃ self,
       Zip_init (Sample.local_header 0 ++ Sample.payload10
                 ++ Sample.central_header 0
                 ++ Sample.central_end 51 45 [x68; x69])
       = Some (self, Raise (NameError "zip_comment_length"))
       ∧ central_directory_end self = None).
Proof.
  split; [|split; [|split; [|split]]].
  - eexists. split; [vm_compute; reflexivity|]. by repeat split.
  - reflexivity.
  - reflexivity.
  - reflexivity.
  - eexists. split; [vm_compute; reflexivity | reflexivity].
Qed.

End EndRecord.

(** ** The data descriptor *)

Section Descriptor.

Lemma sig_central_not_local :
  bytes_eqb sig_central_header sig_local_header = false.
Proof. reflexivity. Qed.

(** Claim C4.  Behind the payload the walker compares the 4 bytes at the
    pointer with PK\x07\x08.  When they are equal and the 16 bytes of the
    block are in the buffer, the three 32-bit fields behind the signature
    are stored under [crc32], [compressedsize] and [uncompressedsize], the
    pointer moves by exactly 16 and the signature is read again there; when
    the block is cut short [struct.unpack] raises.  When they differ,
    nothing is consumed and nothing is stored.  An entry whose signature
    after the descriptor is PK\x01\x02 is appended and ends the first loop,
    which hands that signature to the second loop; in scenario C the walk
    yields one entry with the descriptor's three values and one central
    directory header. *)
Theorem data_descriptor_peek :
  (∀ (data : bytes) (p : Z) (zf : gmap string pyval),
     0 ≤ p → slice data p (p + 4) = sig_data_descriptor → p + 16 ≤ len data →
     data_descriptor data p zf =
       OK (<["uncompressedsize" := VInt (le_value (slice data (p + 12) (p + 16)))]>
             (<["compressedsize" := VInt (le_value (slice data (p + 8) (p + 12)))]>
                (<["crc32" := VInt (le_value (slice data (p + 4) (p + 8)))]> zf)),
           p + 16, slice data (p + 16) (p + 16 + 4)))
  ∧ (∀ (data : bytes) (p : Z) (zf : gmap string pyval),
       0 ≤ p → slice data p (p + 4) = sig_data_descriptor → len data < p + 16 →
       data_descriptor data p zf = Raise StructError)
  ∧ (∀ (data : bytes) (p : Z) (zf : gmap string pyval),
       slice data p (p + 4) ≠ sig_data_descriptor →
       data_descriptor data p zf = OK (zf, p, slice data p (p + 4)))
  ∧ (∀ (fuel : nat) (self : Zip) (p p' : Z) (zf : gmap string pyval),
       local_entry (data self) p = OK (zf, p', sig_central_header) →
       local_loop (S fuel) self p =
         Some (mkZip (data self) (zipped_files self ++ [zf])
                 (central_directory_headers self) (central_directory_end self),
               OK (p', sig_central_header)))
  ∧ (∃ self zf,
       Zip_init Sample.scenario_C = Some (self, OK (FileEnd 134))
       ∧ zipped_files self = [zf]
       ∧ zf !! "crc32" = Some (VInt 0)
       ∧ zf !! "compressedsize" = Some (VInt 10)
       ∧ zf !! "uncompressedsize" = Some (VInt 20)
       ∧ List.length (central_directory_headers self) = 1%nat).
Proof.
  split; [|split; [|split; [|split]]].
  - intros data p zf Hp Hsig Hlen. unfold data_descriptor.
    rewrite Hsig, bytes_eqb_refl.
    rewrite !unpack_I_slice by lia. reflexivity.
  - intros data p zf Hp Hsig Hlen. unfold data_descriptor.
    rewrite Hsig, bytes_eqb_refl.
    destruct (decide (p + 8 ≤ len data)) as [H8|H8];
      [|by rewrite unpack_I_slice_short by lia].
    rewrite (unpack_I_slice data (p + 4)) by lia. cbn [bind].
    destruct (decide (p + 12 ≤ len data)) as [H12|H12];
      [|by rewrite unpack_I_slice_short by lia].
    rewrite (unpack_I_slice data (p + 8)) by lia. cbn [bind].
    by rewrite unpack_I_slice_short by lia.
  - intros data p zf Hsig%bytes_eqb_neq. unfold data_descriptor.
    by rewrite Hsig.
  - intros fuel self p p' zf H. cbn [local_loop].
    rewrite H, sig_central_not_local. reflexivity.
  - eexists _, _. split; [vm_compute; reflexivity|].
    split; [reflexivity|]. by repeat split.
Qed.

Lemma data_descriptor_peek_witness :
  (∃ r, data_descriptor Sample.scenario_C 45 ∅ = OK r ∧ r.1.2 = 45 + 16)
  ∧ data_descriptor (take 50 Sample.scenario_C) 45 ∅ = Raise StructError
  ∧ data_descriptor Sample.scenario_A 45 ∅
    = OK (∅, 45, slice Sample.scenario_A 45 (45 + 4))
  ∧ (∃ r, local_loop 1 (mkZip Sample.scenario_A [] [] None) 0 = Some r
        ∧ r.2 = OK (45, sig_central_header)).
Proof.
  destruct data_descriptor_peek as (Hpresent & Hshort & Habsent & Hnext & _).
  split; [|split; [|split]].
  - eexists. split.
    + apply (Hpresent Sample.scenario_C 45 ∅);
        [lia | reflexivity | by vm_compute].
    + reflexivity.
  - apply (Hshort (take 50 Sample.scenario_C) 45 ∅);
      [lia | reflexivity | reflexivity].
  - apply (Habsent Sample.scenario_A 45 ∅). by vm_compute.
  - eexists. split.
    + apply (Hnext 0%nat (mkZip Sample.scenario_A [] [] None) 0 45).
      vm_compute. reflexivity.
    + reflexivity.
Defined.

End Descriptor.

(** ** The local header *)

Section LocalHeader.

(** Claim C5.  The [length] of a parsed local header is 30 plus its
    filename length plus its extra-field length, and the walker moves its
    pointer from the start of the header by exactly that length and then by
    exactly the compressed size: the payload it stores is the slice between
    these two positions, and the pointer behind it is their sum. *)
Theorem local_header_length_and_advance :
  (∀ (data : bytes) (h : ZipLocalHeader.t),
     ZipLocalHeader.init data = OK h →
     ZipLocalHeader.length h =
       30 + ZipLocalHeader.filename_length h
       + ZipLocalHeader.extra_field_length h)
  ∧ (∀ (data : bytes) (p p1 : Z) (zf : gmap string pyval),
       read_entry data p = OK (zf, p1) →
       ∃ h, ZipLocalHeader.init (slice_from data p) = OK h
          ∧ zf !! "localheader" = Some (VHeader h)
          ∧ zf !! "filedata" =
              Some (VBytes (slice data (p + ZipLocalHeader.length h)
                              (p + ZipLocalHeader.length h
                               + ZipLocalHeader.compressed_size h)))
          ∧ p1 = p + ZipLocalHeader.length h + ZipLocalHeader.compressed_size h)
  ∧ (∀ (data : bytes) (p : Z),
       0 ≤ p → slice data p (p + 4) = sig_local_header → p + 30 ≤ len data →
       ∃ zf p1, read_entry data p = OK (zf, p1)).
Proof.
  split; [|split].
  - intros data h H.
    by apply local_header_OK in H as (_ & _ & _ & _ & _ & _ & _ & _ & _ & ?).
  - intros data p p1 zf (h & Hh & -> & ->)%read_entry_OK.
    exists h. split; [done|]. split; [|split; [|done]].
    + by rewrite lookup_insert_ne, lookup_insert_eq.
    + by rewrite lookup_insert_eq.
  - intros data p Hp Hsig Hlen. unfold read_entry.
    rewrite local_header_complete.
    + cbn. by eexists _, _.
    + rewrite slice_slice_from by lia. by rewrite Z.add_0_r.
    + unfold slice_from, len in *. rewrite length_drop. lia.
Qed.

Lemma local_header_length_and_advance_witness :
  (∃ h, ZipLocalHeader.init Sample.scenario_A = OK h
      ∧ ZipLocalHeader.length h = 30 + 5 + 0)
  ∧ (∃ zf, read_entry Sample.scenario_A 0 = OK (zf, 45)).
Proof.
  destruct local_header_length_and_advance as (Hlen & Hadv & Hok).
  split.
  - eexists. split; [vm_compute; reflexivity|].
    erewrite (Hlen Sample.scenario_A); [|vm_compute; reflexivity].
    reflexivity.
  - destruct (Hok Sample.scenario_A 0) as (zf & p1 & Hr);
      [lia | reflexivity | by vm_compute |].
    destruct (Hadv _ _ _ _ Hr) as (h & Hh & _ & _ & ->).
    exists zf. rewrite Hr. do 2 f_equal.
    assert (ZipLocalHeader.init Sample.scenario_A = OK h) as Hh' by exact Hh.
    vm_compute in Hh'. injection Hh' as <-. reflexivity.
Defined.

(** Claim C6.  A buffer whose first 4 bytes are not PK\x03\x04, the empty
    buffer included, makes [Zip.__init__] raise the local header's
    signature exception at once: no entry, central directory header or end
    record has been stored.  Every record parser compares the signature
    first: when it differs, the parser raises its signature exception
    whatever the other bytes are. *)
Theorem signature_checked_first :
  (∀ content : bytes,
     slice content 0 4 ≠ sig_local_header →
     Zip_init content =
       Some (mkZip content [] [] None,
             Raise (PyException "LocalHeader::Signature Invalid")))
  ∧ Zip_init [] =
      Some (mkZip [] [] [] None,
            Raise (PyException "LocalHeader::Signature Invalid"))
  ∧ (∀ data : bytes,
       slice data 0 4 ≠ sig_local_header →
       ZipLocalHeader.init data =
         Raise (PyException "LocalHeader::Signature Invalid"))
  ∧ (∀ data : bytes,
       slice data 0 4 ≠ sig_central_header →
       CentralDirectoryHeader.init data =
         Raise (PyException "CentralDirectoryHeader::Signature Invalid"))
  ∧ (∀ data : bytes,
       slice data 0 4 ≠ sig_central_end →
       CentralDirectoryEnd.init data =
         Raise (PyException "CentralDirectoryEnd::Signature Invalid")).
Proof.
  split; [|split; [|split; [|split]]].
  - intros content Hsig. unfold Zip_init, walk. cbn [local_loop].
    unfold local_entry, read_entry. cbn [data].
    rewrite slice_from_0, (local_header_signature _ Hsig). reflexivity.
  - reflexivity.
  - apply local_header_signature.
  - apply central_header_signature.
  - apply central_end_signature.
Qed.

Lemma signature_checked_first_witness :
  Zip_init (x00 :: Sample.scenario_A) =
    Some (mkZip (x00 :: Sample.scenario_A) [] [] None,
          Raise (PyException "LocalHeader::Signature Invalid"))
  ∧ ZipLocalHeader.init [x50; x4b; x05; x06] =
      Raise (PyException "LocalHeader::Signature Invalid")
  ∧ CentralDirectoryHeader.init [x50; x4b; x03; x04] =
      Raise (PyException "CentralDirectoryHeader::Signature Invalid")
  ∧ CentralDirectoryEnd.init [x50; x4b] =
      Raise (PyException "CentralDirectoryEnd::Signature Invalid").
Proof.
  destruct signature_checked_first as (Hwalk & _ & Hloc & Hcen & Hend).
  split; [|split; [|split]].
  - apply Hwalk. by vm_compute.
  - apply Hloc. by vm_compute.
  - apply Hcen. by vm_compute.
  - apply Hend. by vm_compute.
Defined.

(** Claim C7.  A local header whose filename length field is 0 is parsed,
    whatever its other fields are, and its filename is left unset; the same
    holds for its extra field, for the three strings of a central directory
    header and for the comment of an end record: a length of 0 gives no
    string and no exception. *)
Theorem zero_length_field_is_empty :
  (∀ data : bytes,
     slice data 0 4 = sig_local_header → 30 ≤ len data →
     ∃ h, ZipLocalHeader.init data = OK h
        ∧ (le_value (slice data 26 28) = 0 →
           ZipLocalHeader.filename_length h = 0
           ∧ ZipLocalHeader.filename h = None)
        ∧ (le_value (slice data 28 30) = 0 →
           ZipLocalHeader.extra_field_length h = 0
           ∧ ZipLocalHeader.extra_field h = None))
  ∧ (∀ data : bytes,
       slice data 0 4 = sig_central_header → 46 ≤ len data →
       ∃ h, CentralDirectoryHeader.init data = OK h
          ∧ (le_value (slice data 28 30) = 0 →
             CentralDirectoryHeader.filename h = None)
          ∧ (le_value (slice data 30 32) = 0 →
             CentralDirectoryHeader.extra_field h = None)
          ∧ (le_value (slice data 32 34) = 0 →
             CentralDirectoryHeader.comment h = None))
  ∧ (∀ data : bytes,
       slice data 0 4 = sig_central_end → 22 ≤ len data →
       le_value (slice data 20 22) = 0 →
       ∃ e, CentralDirectoryEnd.init data = OK e
          ∧ CentralDirectoryEnd.zip_comment e = None).
Proof.
  split; [|split].
  - intros data Hsig Hlen.
    rewrite (local_header_complete data Hsig Hlen). cbn zeta.
    eexists. split; [reflexivity|].
    cbn [ZipLocalHeader.filename_length ZipLocalHeader.filename
         ZipLocalHeader.extra_field_length ZipLocalHeader.extra_field].
    split; by intros ->.
  - intros data Hsig Hlen.
    destruct (central_header_complete data Hsig Hlen)
      as (h & Hh & Hfl & Hefl & Hcl & Hf & He & Hc).
    exists h. split; [done|]. rewrite <- Hfl, <- Hefl, <- Hcl. done.
  - intros data Hsig Hlen H0.
    destruct (central_end_no_comment data Hsig Hlen H0) as (e & He & _ & Hc & _).
    by exists e.
Qed.

Lemma zero_length_field_is_empty_witness :
  (∃ h, ZipLocalHeader.init Sample.local_header_bare = OK h
      ∧ ZipLocalHeader.filename h = None
      ∧ ZipLocalHeader.extra_field h = None)
  ∧ (∃ h, CentralDirectoryHeader.init Sample.central_header_bare = OK h
        ∧ CentralDirectoryHeader.filename h = None
        ∧ CentralDirectoryHeader.extra_field h = None
        ∧ CentralDirectoryHeader.comment h = None)
  ∧ (∃ e, CentralDirectoryEnd.init (Sample.central_end 51 45 []) = OK e
        ∧ CentralDirectoryEnd.zip_comment e = None).
Proof.
  destruct zero_length_field_is_empty as (Hloc & Hcen & Hend).
  split; [|split].
  - destruct (Hloc Sample.local_header_bare) as (h & Hh & Hf & He);
      [reflexivity | by vm_compute |].
    exists h. split; [exact Hh|]. split.
    + apply Hf. reflexivity.
    + apply He. reflexivity.
  - destruct (Hcen Sample.central_header_bare) as (h & Hh & Hf & He & Hc);
      [reflexivity | by vm_compute |].
    exists h. split; [exact Hh|]. split; [|split].
    + apply Hf. reflexivity.
    + apply He. reflexivity.
    + apply Hc. reflexivity.
  - apply (Hend (Sample.central_end 51 45 []));
      [reflexivity | by vm_compute | reflexivity].
Defined.

(** Setting bit 0 of the byte at offset 6 leaves every slice that does not
    hold that byte as it was. *)
Lemma slice_set_flag_behind (data : bytes) (a b : Z) :
  7 ≤ a → slice (set_flag_bit0 data) a b = slice data a b.
Proof.
  intros Ha. unfold slice, set_flag_bit0.
  rewrite drop_alter_lt by lia. reflexivity.
Qed.

Lemma slice_set_flag_before (data : bytes) (a b : Z) :
  0 ≤ a → b ≤ 6 → slice (set_flag_bit0 data) a b = slice data a b.
Proof.
  intros Ha Hb. unfold slice, set_flag_bit0.
  destruct (decide (a ≤ b)) as [Hab|Hab].
  - rewrite drop_alter_ge by lia. rewrite take_alter_ge by lia. reflexivity.
  - replace (Z.to_nat (b - a)) with 0%nat by lia. by rewrite !take_0.
Qed.

Lemma slice_set_flag_other (data : bytes) (a b : Z) :
  0 ≤ a → b ≤ 6 ∨ 7 ≤ a → slice (set_flag_bit0 data) a b = slice data a b.
Proof.
  intros Ha [Hb|Hb];
    [by apply slice_set_flag_before | by apply slice_set_flag_behind].
Qed.

Lemma le_value_set_flag (data : bytes) :
  8 ≤ len data →
  le_value (slice (set_flag_bit0 data) 6 8) = Z.lor (le_value (slice data 6 8)) 1.
Proof.
  intros Hlen.
  destruct data as [|b0 [|b1 [|b2 [|b3 [|b4 [|b5 [|b6 [|b7 data]]]]]]]];
    try (unfold len in Hlen; simpl List.length in Hlen; lia).
  change (le_value [set_bit0 b6; b7] = Z.lor (le_value [b6; b7]) 1).
  cbn [le_value]. rewrite byte_val_set_bit0.
  rewrite <- !Z.lor_assoc. f_equal. apply Z.lor_comm.
Qed.

Lemma local_header_inside (data : bytes) (h : ZipLocalHeader.t) :
  ZipLocalHeader.init data = OK h → 30 ≤ len data.
Proof.
  intros (_ & _ & _ & _ & _ & Hefl & _)%local_header_OK.
  apply unpack_H_OK in Hefl as [Hefl _].
  apply (slice_full_inside data 28 2); [lia | lia |].
  change (28 + 2) with 30. by rewrite Hefl.
Qed.

Lemma local_header_set_flag (data : bytes) (h : ZipLocalHeader.t) :
  ZipLocalHeader.init data = OK h →
  ZipLocalHeader.init (set_flag_bit0 data) =
    OK (with_flag h (Z.lor (ZipLocalHeader.flag h) 1) true).
Proof.
  intros H.
  pose proof (local_header_inside data h H) as Hlen.
  pose proof (local_header_OK data h H) as (Hsig & _).
  rewrite (local_header_complete data Hsig Hlen) in H.
  injection H as <-.
  rewrite local_header_complete.
  - pose proof (le_value_nonneg (slice data 26 28)) as Hfl.
    pose proof (le_value_nonneg (slice data 28 30)) as Hefl.
    rewrite (slice_set_flag_behind data 26 28) by lia.
    rewrite (slice_set_flag_behind data 28 30) by lia.
    cbn zeta. unfold with_flag.
    cbn -[slice set_flag_bit0 le_value Z.add Z.land Z.lor Z.ltb Z.eqb].
    rewrite !le_value_set_flag by lia.
    rewrite !slice_set_flag_other by lia.
    rewrite land_1_testbit, Z.lor_spec, orb_true_r. reflexivity.
  - by rewrite slice_set_flag_before by lia.
  - unfold set_flag_bit0, len. rewrite length_alter. exact Hlen.
Qed.

(** Claim C8.  [encrypted] is bit 0 of the flag.  Setting bit 0 of the flag
    field in the bytes of a header that parses gives a header that parses to
    the same fields, except that the flag has bit 0 set and [encrypted] is
    true; the entry the walker reads there has the same payload and ends at
    the same position. *)
Theorem encrypted_is_flag_bit0 :
  (∀ (data : bytes) (h : ZipLocalHeader.t),
     ZipLocalHeader.init data = OK h →
     ZipLocalHeader.encrypted h = Z.testbit (ZipLocalHeader.flag h) 0)
  ∧ (∀ (data : bytes) (h : ZipLocalHeader.t),
       ZipLocalHeader.init data = OK h →
       ZipLocalHeader.init (set_flag_bit0 data) =
         OK (with_flag h (Z.lor (ZipLocalHeader.flag h) 1) true))
  ∧ (∀ (data : bytes) (zf : gmap string pyval) (p1 : Z),
       read_entry data 0 = OK (zf, p1) →
       ∃ h, zf !! "localheader" = Some (VHeader h)
          ∧ read_entry (set_flag_bit0 data) 0 =
              OK (<["localheader" :=
                     VHeader (with_flag h (Z.lor (ZipLocalHeader.flag h) 1) true)]> zf,
                  p1)).
Proof.
  split; [|split].
  - intros data h H.
    apply local_header_OK in H as (_ & _ & _ & _ & _ & _ & _ & _ & -> & _).
    rewrite land_1_testbit. by destruct (Z.testbit _ 0).
  - apply local_header_set_flag.
  - intros data zf p1 (h & Hh & -> & ->)%read_entry_OK.
    rewrite slice_from_0 in Hh. exists h. split.
    { by rewrite lookup_insert_ne, lookup_insert_eq. }
    unfold read_entry. rewrite slice_from_0, (local_header_set_flag data h Hh).
    cbn [bind]. unfold with_flag at 1 2 3 4 5.
    cbn [ZipLocalHeader.length ZipLocalHeader.compressed_size].
    pose proof (local_header_OK data h Hh)
      as (_ & _ & _ & _ & Hfl & Hefl & _ & _ & _ & Hlen).
    apply unpack_H_nonneg in Hfl, Hefl.
    rewrite slice_set_flag_behind by lia.
    rewrite (insert_insert_ne _ "localheader" "filedata") by done.
    rewrite insert_insert_eq. reflexivity.
Qed.

Lemma encrypted_is_flag_bit0_witness :
  (∃ h, ZipLocalHeader.init Sample.scenario_B = OK h
      ∧ ZipLocalHeader.encrypted h = Z.testbit (ZipLocalHeader.flag h) 0)
  ∧ (∃ h, ZipLocalHeader.init Sample.scenario_A = OK h
        ∧ ZipLocalHeader.init (set_flag_bit0 Sample.scenario_A) =
            OK (with_flag h (Z.lor (ZipLocalHeader.flag h) 1) true)).
Proof.
  destruct encrypted_is_flag_bit0 as (Hbit & Hset & _).
  split.
  - eexists. split; [vm_compute; reflexivity|].
    eapply (Hbit Sample.scenario_B). vm_compute; reflexivity.
  - eexists. split; [vm_compute; reflexivity|].
    apply (Hset Sample.scenario_A). vm_compute; reflexivity.
Defined.

End LocalHeader.

(** ** Termination and the bound of the walk *)

Section Termination.

Lemma central_header_inside (data : bytes) (h : CentralDirectoryHeader.t) :
  CentralDirectoryHeader.init data = OK h → 46 ≤ len data.
Proof.
  intros (_ & _ & _ & _ & Hoff & _)%central_header_OK.
  apply unpack_I_OK in Hoff as [Hoff _].
  apply (slice_full_inside data 42 4); [lia | lia |].
  change (42 + 4) with 46. by rewrite Hoff.
Qed.

Lemma len_slice_from (data : bytes) (p : Z) :
  0 ≤ p → 0 < len (slice_from data p) → len (slice_from data p) = len data - p.
Proof.
  unfold slice_from, len. rewrite length_drop. lia.
Qed.

(** A header that was parsed at [p] lies inside the buffer. *)
Lemma read_entry_inside (data : bytes) (p p1 : Z) (zf : gmap string pyval) :
  0 ≤ p → read_entry data p = OK (zf, p1) → p + 30 ≤ len data.
Proof.
  intros Hp (h & Hh & _)%read_entry_OK.
  apply local_header_inside in Hh.
  pose proof (len_slice_from data p Hp). lia.
Qed.

Lemma local_entry_inside (data : bytes) (p p' : Z) (zf : gmap string pyval)
    (sig : bytes) :
  0 ≤ p → local_entry data p = OK (zf, p', sig) → p + 30 ≤ len data.
Proof.
  unfold local_entry. intros Hp H. inv_bind H. destruct a as [zf1 p1].
  by apply read_entry_inside in E.
Qed.

(** Every entry the first loop stores stands for 30 bytes of the buffer
    that lie before the pointer. *)
Lemma local_loop_count (fuel : nat) (self self' : Zip) (p : Z)
    (r : result (Z * bytes)) :
  0 ≤ p →
  30 * Z.of_nat (List.length (zipped_files self)) ≤ p →
  30 * Z.of_nat (List.length (zipped_files self)) ≤ len (data self) →
  local_loop fuel self p = Some (self', r) →
  30 * Z.of_nat (List.length (zipped_files self')) ≤ len (data self)
  ∧ ∀ p' sig, r = OK (p', sig) →
      30 * Z.of_nat (List.length (zipped_files self')) ≤ p'.
Proof.
  revert self p. induction fuel as [|fuel IH]; intros self p Hp Hinv Hlen H; [done|].
  cbn [local_loop] in H.
  destruct (local_entry (data self) p) as [[[zf p1] sig1]|e] eqn:E.
  - pose proof (local_entry_inside _ _ _ _ _ Hp E) as Hin.
    apply local_entry_OK in E as [Hp1 _].
    destruct (negb _).
    + injection H as <- <-. cbn. rewrite length_app. cbn. split; [lia|].
      intros p' sig [= <- _]. lia.
    + apply IH in H; cbn; rewrite ?length_app; cbn; try lia. exact H.
  - injection H as <- <-. split; [done|]. intros p' sig [=].
Qed.

Lemma central_loop_count (fuel : nat) (self self' : Zip) (p : Z) (sig : bytes)
    (r : result (Z * bytes)) (n : Z) :
  0 ≤ p →
  n + 46 * Z.of_nat (List.length (central_directory_headers self)) ≤ p →
  n + 46 * Z.of_nat (List.length (central_directory_headers self))
    ≤ len (data self) →
  central_loop fuel self p sig = Some (self', r) →
  n + 46 * Z.of_nat (List.length (central_directory_headers self'))
    ≤ len (data self).
Proof.
  revert self p sig.
  induction fuel as [|fuel IH]; intros self p sig Hp Hinv Hlen H; [done|].
  cbn [central_loop] in H.
  destruct (negb _); [by injection H as <- <-|].
  destruct (CentralDirectoryHeader.init _) as [h|e] eqn:E;
    [|by injection H as <- <-].
  pose proof (central_header_inside _ _ E) as Hin.
  pose proof (len_slice_from (data self) p Hp) as Hrest.
  apply central_header_OK in E as (_ & Hfl & Hefl & Hcl & _ & Hh).
  apply unpack_H_nonneg in Hfl, Hefl, Hcl.
  apply IH in H; cbn in *; rewrite ?length_app in *; cbn; lia.
Qed.

(** Claim C9.  [Zip.__init__] ends on every buffer: with one unit of fuel
    more than the buffer has bytes both loops finish, and more fuel changes
    nothing.  One iteration of the first loop moves the pointer by 30 bytes
    or more and goes on only when 4 more bytes lie behind the pointer; one
    iteration of the second loop moves it by the header's length, which is
    46 or more.  What the walk stores is bounded by the buffer: 30 bytes for
    every entry and 46 for every central directory header fit into it. *)
Theorem walk_terminates :
  (∀ content : bytes, ∃ r, Zip_init content = Some r)
  ∧ (∀ (content : bytes) (fuel : nat),
       (List.length content < fuel)%nat → walk fuel content = Zip_init content)
  ∧ (∀ (data : bytes) (p p' : Z) (zf : gmap string pyval) (sig : bytes),
       local_entry data p = OK (zf, p', sig) →
       p + 30 ≤ p' ∧ (0 ≤ p → sig = sig_local_header → p' + 4 ≤ len data))
  ∧ (∀ (fuel : nat) (self : Zip) (p : Z) (h : CentralDirectoryHeader.t),
       CentralDirectoryHeader.init (slice_from (data self) p) = OK h →
       p + 46 ≤ p + CentralDirectoryHeader.length h
       ∧ central_loop (S fuel) self p sig_central_header =
           central_loop fuel
             (mkZip (data self) (zipped_files self)
                (central_directory_headers self ++ [h])
                (central_directory_end self))
             (p + CentralDirectoryHeader.length h)
             (slice (data self) (p + CentralDirectoryHeader.length h)
                (p + CentralDirectoryHeader.length h + 4)))
  ∧ (∀ (content : bytes) (self : Zip) (r : result report),
       Zip_init content = Some (self, r) →
       30 * Z.of_nat (List.length (zipped_files self))
       + 46 * Z.of_nat (List.length (central_directory_headers self))
       ≤ len content).
Proof.
  split; [|split; [|split; [|split]]].
  - intros content. apply walk_total. lia.
  - intros content fuel Hfuel.
    destruct (walk_total (S (List.length content)) content) as [r Hr]; [lia|].
    unfold Zip_init. rewrite Hr. apply (walk_more_fuel _ fuel) in Hr; [done | lia].
  - intros data p p' zf sig H.
    apply local_entry_OK in H as [Hadv ->]. split; [done|].
    intros Hp Hsig. apply (signature_inside data p' sig_local_header); [lia | done |].
    by apply bytes_eqb_eq.
  - intros fuel self p h Hh. split.
    + apply central_header_OK in Hh as (_ & Hfl & Hefl & Hcl & _ & ->).
      apply unpack_H_nonneg in Hfl, Hefl, Hcl. lia.
    + cbn [central_loop]. rewrite bytes_eqb_refl, Hh. reflexivity.
  - intros content self r. unfold Zip_init, walk.
    destruct (local_loop _ _ 0) as [[self1 r1]|] eqn:Hloc; [|done].
    pose proof (local_loop_data _ _ _ _ _ Hloc) as Hdata1.
    pose proof Hloc as Hcount.
    apply local_loop_count in Hcount as [Hn Hp1];
      [| lia | cbn; lia | cbn; unfold len; lia].
    cbn [data] in *.
    destruct r1 as [[p1 sig1]|e].
    2:{ intros [= <- _]. apply local_loop_headers in Hloc. rewrite Hloc. cbn. lia. }
    specialize (Hp1 _ _ eq_refl).
    pose proof (local_loop_OK _ _ _ _ _ _ (Z.le_refl 0) Hloc)
      as (Hp1' & _ & _ & _ & Hcdh & _). cbn in Hcdh.
    destruct (central_loop _ self1 p1 sig1) as [[self2 r2]|] eqn:Hcen; [|done].
    pose proof (central_loop_Some _ _ _ _ _ _ Hcen) as (Hdata2 & Hzf2 & _).
    apply (central_loop_count _ _ _ _ _ _
             (30 * Z.of_nat (List.length (zipped_files self1)))) in Hcen;
      rewrite ?Hcdh, ?Hdata1; cbn; try lia.
    rewrite Hdata1 in Hcen.
    destruct r2 as [[p2 sig2]|e].
    2:{ intros [= <- _]. rewrite Hzf2. lia. }
    destruct (end_record self2 p2 sig2) as [self3 r3] eqn:Hend.
    assert (zipped_files self3 = zipped_files self2
            ∧ central_directory_headers self3 = central_directory_headers self2)
      as [Hzf3 Hcd3].
    { unfold end_record in Hend. destruct (bytes_eqb _ _); [|by injection Hend as <- <-].
      destruct (CentralDirectoryEnd.init _); by injection Hend as <- <-. }
    destruct r3; intros [= <- _]; rewrite Hzf3, Hcd3, Hzf2; lia.
Qed.

Lemma walk_terminates_witness :
  walk 200 Sample.scenario_A = Zip_init Sample.scenario_A
  ∧ (∃ zf, local_entry Sample.scenario_A 0 = OK (zf, 45, sig_central_header)
         ∧ 0 + 30 ≤ 45)
  ∧ 45 + 46 ≤ 45 + 51
  ∧ (∃ self r, Zip_init Sample.scenario_A = Some (self, r)
             ∧ 30 * Z.of_nat (List.length (zipped_files self))
               + 46 * Z.of_nat (List.length (central_directory_headers self))
               ≤ len Sample.scenario_A).
Proof.
  destruct walk_terminates as (Hend & Hfuel & Hloc & Hcen & Hbound).
  split; [|split; [|split]].
  - apply Hfuel. vm_compute. lia.
  - eexists. split; [vm_compute; reflexivity|].
    refine (proj1 (Hloc Sample.scenario_A 0 45 _ sig_central_header _)).
    vm_compute. reflexivity.
  - refine (proj1 (Hcen 0%nat (mkZip Sample.scenario_A [] [] None) 45
              (CentralDirectoryHeader.mk sig_central_header 20 20 0 8 0 0 0
                 10 20 5 0 0 0 0 0 0 (Some Sample.name_a_txt) None None 51) _)).
    vm_compute. reflexivity.
  - destruct (Hend Sample.scenario_A) as [[self r] Hr].
    exists self, r. split; [exact Hr|]. exact (Hbound _ _ _ Hr).
Defined.

End Termination.

(** ** An archive without entries *)

Section NoEntries.

(** Claim C10.  The walk starts by parsing a local header, so every buffer
    that starts with the end record's signature PK\x05\x06, the archive
    without entries among them, raises the local header's signature
    exception with nothing stored; and every walk that ends without an
    exception has stored an entry. *)
Theorem archive_without_entries_rejected :
  (∀ rest : bytes,
     Zip_init (sig_central_end ++ rest) =
       Some (mkZip (sig_central_end ++ rest) [] [] None,
             Raise (PyException "LocalHeader::Signature Invalid")))
  ∧ (∀ (content : bytes) (self : Zip) (rep : report),
       Zip_init content = Some (self, OK rep) → zipped_files self ≠ []).
Proof.
  split.
  - intros rest. reflexivity.
  - intros content self rep. unfold Zip_init, walk.
    destruct (local_loop _ _ 0) as [[self1 [[p1 sig1]|e]]|] eqn:Hloc; [| done | done].
    apply local_loop_OK in Hloc as (_ & _ & _ & Hne & _); [|done].
    destruct (central_loop _ self1 p1 sig1) as [[self2 [[p2 sig2]|e]]|] eqn:Hcen;
      [| done | done].
    apply central_loop_Some in Hcen as (_ & Hzf2 & _).
    destruct (end_record self2 p2 sig2) as [self3 [p3|e]] eqn:Hend; [|done].
    apply end_record_fields in Hend as [_ Hzf3].
    intros [= <- _]. congruence.
Qed.

Lemma archive_without_entries_rejected_witness :
  Zip_init (sig_central_end ++ Sample.u16 0 ++ Sample.u16 0 ++ Sample.u16 0
            ++ Sample.u16 0 ++ Sample.u32 0 ++ Sample.u32 0 ++ Sample.u16 0) =
    Some (mkZip (sig_central_end ++ Sample.u16 0 ++ Sample.u16 0 ++ Sample.u16 0
                 ++ Sample.u16 0 ++ Sample.u32 0 ++ Sample.u32 0 ++ Sample.u16 0)
            [] [] None,
          Raise (PyException "LocalHeader::Signature Invalid"))
  ∧ (∃ self, Zip_init Sample.scenario_A = Some (self, OK (FileEnd 118))
           ∧ zipped_files self ≠ []).
Proof.
  destruct archive_without_entries_rejected as (Hrej & Hne).
  split.
  - apply Hrej.
  - eexists. split; [vm_compute; reflexivity|].
    eapply (Hne Sample.scenario_A). vm_compute. reflexivity.
Defined.

End NoEntries.

(** ** How the walk can end *)

Section Outcomes.

Lemma unpack_H_Raise (s : bytes) (e : exn) : unpack_H s = Raise e → e = StructError.
Proof. destruct s as [|? [|? [|? ?]]]; simpl; by intros [= <-]. Qed.

Lemma unpack_I_Raise (s : bytes) (e : exn) : unpack_I s = Raise e → e = StructError.
Proof. destruct s as [|? [|? [|? [|? [|? ?]]]]]; simpl; by intros [= <-]. Qed.

End Outcomes.

(** Inversion of a sequence of reads that raised: the exception is that of
    the first read that failed. *)
Ltac inv_raise H :=
  repeat match type of H with
  | bind ?m _ = Raise _ =>
      let E := fresh "E" in
      destruct m eqn:E; cbn [bind] in H;
      [| injection H as <-;
         try apply unpack_H_Raise in E; try apply unpack_I_Raise in E ]
  end.

Section OutcomesOfParsers.

(** A local header that is not parsed either has a wrong signature or is
    cut inside its fixed part. *)
Lemma local_header_Raise (data : bytes) (e : exn) :
  ZipLocalHeader.init data = Raise e →
  (e = PyException "LocalHeader::Signature Invalid"
   ∧ slice data 0 4 ≠ sig_local_header)
  ∨ (e = StructError ∧ slice data 0 4 = sig_local_header).
Proof.
  unfold ZipLocalHeader.init. intros H.
  destruct (bytes_eqb (slice data 0 4) sig_local_header) eqn:Hsig;
    cbn [negb] in H.
  - right. apply bytes_eqb_eq in Hsig. split; [|done].
    inv_raise H; [discriminate H | done ..].
  - left. apply bytes_eqb_neq in Hsig. by injection H as <-.
Qed.

Lemma central_header_Raise (data : bytes) (e : exn) :
  CentralDirectoryHeader.init data = Raise e →
  (e = PyException "CentralDirectoryHeader::Signature Invalid"
   ∧ slice data 0 4 ≠ sig_central_header)
  ∨ (e = StructError ∧ slice data 0 4 = sig_central_header).
Proof.
  unfold CentralDirectoryHeader.init. intros H.
  destruct (bytes_eqb (slice data 0 4) sig_central_header) eqn:Hsig;
    cbn [negb] in H.
  - right. apply bytes_eqb_eq in Hsig. split; [|done].
    inv_raise H; [discriminate H | done ..].
  - left. apply bytes_eqb_neq in Hsig. by injection H as <-.
Qed.

(** What a successful [CentralDirectoryEnd] looks like: its comment
    length is 0. *)
Lemma central_end_OK (data : bytes) (e : CentralDirectoryEnd.t) :
  CentralDirectoryEnd.init data = OK e →
  slice data 0 4 = sig_central_end
  ∧ CentralDirectoryEnd.signature e = sig_central_end
  ∧ 22 ≤ len data
  ∧ CentralDirectoryEnd.zip_comment_length e = 0
  ∧ CentralDirectoryEnd.zip_comment e = None
  ∧ CentralDirectoryEnd.length e = 22.
Proof.
  unfold CentralDirectoryEnd.init. intros H.
  destruct (bytes_eqb (slice data 0 4) sig_central_end) eqn:Hsig;
    cbn [negb] in H; [|discriminate H].
  apply bytes_eqb_eq in Hsig.
  inv_bind H.
  destruct (0 <? a5) eqn:Hpos.
  { rewrite load_zip_comment_length in E6. discriminate E6. }
  injection E6 as <-. injection H as <-. cbn.
  apply Z.ltb_ge in Hpos. pose proof (unpack_H_nonneg _ _ E5).
  apply unpack_H_OK in E5 as [Hlen _].
  repeat split; try done; try lia.
  apply (slice_full_inside data 20 2); [lia | lia |].
  change (20 + 2) with 22. by rewrite Hlen.
Qed.

Lemma central_end_Raise (data : bytes) (e : exn) :
  CentralDirectoryEnd.init data = Raise e →
  (e = PyException "CentralDirectoryEnd::Signature Invalid"
   ∧ slice data 0 4 ≠ sig_central_end)
  ∨ (e = StructError ∧ slice data 0 4 = sig_central_end)
  ∨ (e = NameError "zip_comment_length" ∧ slice data 0 4 = sig_central_end).
Proof.
  unfold CentralDirectoryEnd.init. intros H.
  destruct (bytes_eqb (slice data 0 4) sig_central_end) eqn:Hsig;
    cbn [negb] in H.
  - right. apply bytes_eqb_eq in Hsig.
    inv_raise H; [discriminate H | try (by left) ..].
    destruct (0 <? a5); [|discriminate E6].
    rewrite load_zip_comment_length in E6. injection E6 as <-. by right.
  - left. apply bytes_eqb_neq in Hsig. by injection H as <-.
Qed.

End OutcomesOfParsers.

Section OutcomesOfWalk.

Lemma data_descriptor_Raise (data : bytes) (p : Z) (zf : gmap string pyval)
    (e : exn) :
  data_descriptor data p zf = Raise e → e = StructError.
Proof.
  unfold data_descriptor. intros H.
  destruct (bytes_eqb _ _); [|discriminate H].
  inv_raise H; [discriminate H | done ..].
Qed.

Lemma local_entry_Raise (data : bytes) (p : Z) (e : exn) :
  0 ≤ p → local_entry data p = Raise e →
  (e = PyException "LocalHeader::Signature Invalid"
   ∧ slice data p (p + 4) ≠ sig_local_header)
  ∨ e = StructError.
Proof.
  intros Hp. unfold local_entry. intros H.
  destruct (read_entry data p) as [[zf p1]|e1] eqn:E; cbn [bind] in H.
  - right. by apply data_descriptor_Raise in H.
  - injection H as <-. unfold read_entry in E.
    destruct (ZipLocalHeader.init _) as [h|e2] eqn:Eh; cbn [bind] in E;
      [discriminate E|].
    injection E as <-.
    apply local_header_Raise in Eh as [[-> Hsig]|[-> _]]; [left | by right].
    split; [done|].
    rewrite slice_slice_from in Hsig by lia. by rewrite Z.add_0_r in Hsig.
Qed.

Lemma local_loop_end (fuel : nat) (self self' : Zip) (p : Z)
    (r : result (Z * bytes)) :
  local_loop fuel self p = Some (self', r) →
  central_directory_end self' = central_directory_end self.
Proof.
  revert self p. induction fuel as [|fuel IH]; intros self p H; [done|].
  cbn [local_loop] in H.
  destruct (local_entry (data self) p) as [[[zf p1] sig1]|e]; [|by injection H as <- <-].
  destruct (negb _); [by injection H as <- <-|].
  by apply IH in H.
Qed.

(** Behind the first header the first loop parses a header only where it
    has seen the magic value, so the signature exception can come from the
    first header only, and then nothing has been stored. *)
Lemma local_loop_Raise (fuel : nat) (self self' : Zip) (p : Z) (e : exn) :
  0 ≤ p → local_loop fuel self p = Some (self', Raise e) →
  (e = PyException "LocalHeader::Signature Invalid"
   ∧ slice (data self) p (p + 4) ≠ sig_local_header ∧ self' = self)
  ∨ e = StructError.
Proof.
  revert self p. induction fuel as [|fuel IH]; intros self p Hp H; [done|].
  cbn [local_loop] in H.
  destruct (local_entry (data self) p) as [[[zf p1] sig1]|e1] eqn:E.
  - apply local_entry_OK in E as [Hp1 ->].
    destruct (bytes_eqb _ _) eqn:Hsig; cbn [negb] in H; [|discriminate H].
    apply bytes_eqb_eq in Hsig.
    apply IH in H as [(_ & Hne & _)|He]; [| by right | lia].
    cbn in Hne. congruence.
  - injection H as <- <-.
    apply local_entry_Raise in E as [[-> Hne] | ->]; [by left | by right | done].
Qed.

Lemma central_loop_Raise (fuel : nat) (self self' : Zip) (p : Z) (e : exn) :
  0 ≤ p →
  central_loop fuel self p (slice (data self) p (p + 4)) = Some (self', Raise e) →
  e = StructError.
Proof.
  revert self p. induction fuel as [|fuel IH]; intros self p Hp H; [done|].
  cbn [central_loop] in H.
  destruct (bytes_eqb _ _) eqn:Hsig; cbn [negb] in H; [|discriminate H].
  apply bytes_eqb_eq in Hsig.
  destruct (CentralDirectoryHeader.init _) as [h|e1] eqn:E.
  - apply central_header_OK in E as (_ & Hfl & Hefl & Hcl & _ & Hlen).
    apply unpack_H_nonneg in Hfl, Hefl, Hcl.
    apply (IH (mkZip _ _ _ _)) in H; [done | lia].
  - injection H as <- <-.
    apply central_header_Raise in E as [[_ Hne]|[-> _]]; [|done].
    rewrite slice_slice_from in Hne by lia. by rewrite Z.add_0_r in Hne.
Qed.

Lemma central_loop_OK (fuel : nat) (self self' : Zip) (p p' : Z)
    (sig sig' : bytes) :
  0 ≤ p → sig = slice (data self) p (p + 4) →
  central_loop fuel self p sig = Some (self', OK (p', sig')) →
  p ≤ p' ∧ sig' = slice (data self) p' (p' + 4) ∧ sig' ≠ sig_central_header.
Proof.
  revert self p sig. induction fuel as [|fuel IH]; intros self p sig Hp -> H; [done|].
  cbn [central_loop] in H.
  destruct (bytes_eqb _ _) eqn:Hsig; cbn [negb] in H.
  - destruct (CentralDirectoryHeader.init _) as [h|e1] eqn:E; [|discriminate H].
    apply central_header_OK in E as (_ & Hfl & Hefl & Hcl & _ & Hlen).
    apply unpack_H_nonneg in Hfl, Hefl, Hcl.
    apply (IH (mkZip _ _ _ _)) in H as (? & ? & ?); cbn in *; [| lia | done].
    split; [lia | done].
  - injection H as <- <- <-. apply bytes_eqb_neq in Hsig. done.
Qed.

Lemma tail_report_OK (self : Zip) (p : Z) (sig : bytes) (rep : report) :
  tail_report self p sig = OK rep → p = len (data self) ∧ rep = FileEnd p.
Proof.
  destruct (decide (p = len (data self))) as [->|Hne].
  - rewrite tail_report_at_end. by intros [= <-].
  - by rewrite tail_report_not_at_end.
Qed.

Lemma tail_report_Raise (self : Zip) (p : Z) (sig : bytes) (e : exn) :
  tail_report self p sig = Raise e → e = NameError "data" ∧ p ≠ len (data self).
Proof.
  destruct (decide (p = len (data self))) as [->|Hne].
  - by rewrite tail_report_at_end.
  - rewrite tail_report_not_at_end by done. by intros [= <-].
Qed.

(** The stages of a walk that returned. *)
Lemma walk_inv (fuel : nat) (content : bytes) (self : Zip) (r : result report) :
  walk fuel content = Some (self, r) →
  ∃ self1 r1,
    local_loop fuel (mkZip content [] [] None) 0 = Some (self1, r1)
    ∧ match r1 with
      | Raise e => self = self1 ∧ r = Raise e
      | OK (p1, sig1) =>
          ∃ self2 r2,
            central_loop fuel self1 p1 sig1 = Some (self2, r2)
            ∧ match r2 with
              | Raise e => self = self2 ∧ r = Raise e
              | OK (p2, sig2) =>
                  ∃ r3,
                    end_record self2 p2 sig2 = (self, r3)
                    ∧ match r3 with
                      | Raise e => r = Raise e
                      | OK p3 => r = tail_report self p3 sig2
                      end
              end
      end.
Proof.
  unfold walk.
  destruct (local_loop _ _ 0) as [[self1 [[p1 sig1]|e]]|] eqn:Hloc; [| |done].
  - destruct (central_loop _ self1 p1 sig1) as [[self2 [[p2 sig2]|e]]|] eqn:Hcen;
      [| |done].
    + destruct (end_record self2 p2 sig2) as [self3 [p3|e]] eqn:Hend;
        intros [= <- <-];
        exists self1, (OK (p1, sig1)); (split; [reflexivity|]);
        exists self2, (OK (p2, sig2)); (split; [exact Hcen|]);
        eexists; (split; [exact Hend|]); reflexivity.
    + intros [= <- <-]. exists self1, (OK (p1, sig1)). split; [reflexivity|].
      exists self2, (Raise e). by split.
  - intros [= <- <-]. exists self1, (Raise e). by split.
Qed.

Lemma end_record_OK (self self' : Zip) (p p' : Z) (sig : bytes) :
  end_record self p sig = (self', OK p') →
  (sig ≠ sig_central_end ∧ self' = self ∧ p' = p)
  ∨ (∃ e, sig = sig_central_end
        ∧ CentralDirectoryEnd.init (slice_from (data self) p) = OK e
        ∧ self' = mkZip (data self) (zipped_files self)
                    (central_directory_headers self) (Some e)
        ∧ p' = p + 22).
Proof.
  unfold end_record. destruct (bytes_eqb _ _) eqn:Hsig.
  - apply bytes_eqb_eq in Hsig.
    destruct (CentralDirectoryEnd.init _) as [e|e] eqn:E; [|done].
    intros [= <- <-]. right. exists e.
    apply central_end_OK in E as Hfacts.
    destruct Hfacts as (_ & _ & _ & _ & _ & ->). done.
  - apply bytes_eqb_neq in Hsig. intros [= <- <-]. by left.
Qed.

Lemma end_record_Raise (self self' : Zip) (p : Z) (e : exn) :
  0 ≤ p →
  end_record self p (slice (data self) p (p + 4)) = (self', Raise e) →
  self' = self ∧ (e = StructError ∨ e = NameError "zip_comment_length").
Proof.
  intros Hp. unfold end_record. destruct (bytes_eqb _ _) eqn:Hsig; [|done].
  destruct (CentralDirectoryEnd.init _) as [e1|e1] eqn:E; [done|].
  intros [= <- <-]. split; [done|].
  apply central_end_Raise in E as [[_ Hne]|[[-> _]|[-> _]]];
    [| by left | by right].
  rewrite slice_slice_from in Hne by lia. rewrite Z.add_0_r in Hne.
  by apply bytes_eqb_eq in Hsig.
Qed.

End OutcomesOfWalk.

Section WalkResults.

Lemma walk_OK_at_end (fuel : nat) (content : bytes) (self : Zip) (rep : report) :
  walk fuel content = Some (self, OK rep) →
  rep = FileEnd (len content) ∧ data self = content.
Proof.
  intros (self1 & r1 & Hloc & H)%walk_inv.
  pose proof (local_loop_data _ _ _ _ _ Hloc) as Hd1. cbn in Hd1.
  destruct r1 as [[p1 sig1]|e]; [|by destruct H].
  destruct H as (self2 & r2 & Hcen & H).
  apply central_loop_Some in Hcen as (Hd2 & _).
  destruct r2 as [[p2 sig2]|e]; [|by destruct H].
  destruct H as (r3 & Hend & H).
  apply end_record_fields in Hend as [Hd3 _].
  destruct r3 as [p3|e]; [|done].
  symmetry in H. apply tail_report_OK in H as [-> ->].
  rewrite Hd3, Hd2, Hd1. done.
Qed.

(** A walk that returns has its pointer at the end of the buffer: the only
    report is that of the end of the file, and the overlay report is never
    produced. *)
Theorem walk_reports_only_file_end (content : bytes) (self : Zip) (rep : report) :
  Zip_init content = Some (self, OK rep) →
  rep = FileEnd (len content) ∧ data self = content.
Proof.
  intros H. unfold Zip_init in H. exact (walk_OK_at_end _ _ _ _ H).
Qed.

Lemma walk_reports_only_file_end_witness :
  ∃ self, Zip_init Sample.scenario_C = Some (self, OK (FileEnd 134))
        ∧ FileEnd 134 = FileEnd (len Sample.scenario_C)
        ∧ data self = Sample.scenario_C.
Proof.
  eexists. split; [vm_compute; reflexivity|].
  eapply (walk_reports_only_file_end Sample.scenario_C). vm_compute. reflexivity.
Defined.

(** The exceptions [Zip.__init__] can raise.  The signature exception is
    that of the local header at offset 0, with nothing stored: behind it,
    every record is parsed only where its magic value has been seen, so the
    signature exceptions of the central directory header and of the end
    record are never raised.  Everything else is [struct.error] from a
    record cut inside its fixed part, or one of the two [NameError]s. *)
Theorem walk_exceptions (content : bytes) (self : Zip) (e : exn) :
  Zip_init content = Some (self, Raise e) →
  (e = PyException "LocalHeader::Signature Invalid"
   ∧ slice content 0 4 ≠ sig_local_header
   ∧ self = mkZip content [] [] None)
  ∨ e = StructError
  ∨ (e = NameError "zip_comment_length" ∧ central_directory_end self = None)
  ∨ e = NameError "data".
Proof.
  intros (self1 & r1 & Hloc & H)%walk_inv.
  destruct r1 as [[p1 sig1]|e1].
  - right.
    pose proof (local_loop_end _ _ _ _ _ Hloc) as He1. cbn in He1.
    apply local_loop_OK in Hloc as (Hp1 & Hs1 & Hd1 & _); [|done].
    cbn [data] in Hs1, Hd1. rewrite <- Hd1 in Hs1. subst sig1.
    destruct H as (self2 & r2 & Hcen & H).
    destruct r2 as [[p2 sig2]|e2].
    + pose proof (central_loop_Some _ _ _ _ _ _ Hcen) as (Hd2 & _ & He2).
      apply central_loop_OK in Hcen as (Hp2 & Hs2 & _); [| done | done].
      rewrite <- Hd2 in Hs2. subst sig2.
      destruct H as (r3 & Hend & H). destruct r3 as [p3|e3].
      * symmetry in H. apply tail_report_Raise in H as [-> _]. by do 2 right.
      * injection H as <-.
        apply end_record_Raise in Hend as [-> [-> | ->]]; [| | lia].
        -- by left.
        -- right. left. split; [done|]. congruence.
    + destruct H as [_ [= <-]].
      apply central_loop_Raise in Hcen as ->; [by left | done].
  - destruct H as [-> [= <-]].
    apply local_loop_Raise in Hloc as [(-> & Hne & ->) | ->];
      [by left | by right; left | done].
Qed.

Lemma walk_exceptions_witness :
  ∃ self e,
    Zip_init (Sample.central_header 0) = Some (self, Raise e)
    ∧ ((e = PyException "LocalHeader::Signature Invalid"
        ∧ slice (Sample.central_header 0) 0 4 ≠ sig_local_header
        ∧ self = mkZip (Sample.central_header 0) [] [] None)
       ∨ e = StructError
       ∨ (e = NameError "zip_comment_length" ∧ central_directory_end self = None)
       ∨ e = NameError "data").
Proof.
  eexists _, _. split; [vm_compute; reflexivity|].
  eapply (walk_exceptions (Sample.central_header 0)). vm_compute. reflexivity.
Defined.

(** Whatever the outcome of the walk, an end record it has stored has no
    comment: its comment length is 0 and its length is 22. *)
Theorem stored_end_record_has_no_comment (content : bytes) (self : Zip)
    (r : result report) (e : CentralDirectoryEnd.t) :
  Zip_init content = Some (self, r) →
  central_directory_end self = Some e →
  CentralDirectoryEnd.signature e = sig_central_end
  ∧ CentralDirectoryEnd.zip_comment_length e = 0
  ∧ CentralDirectoryEnd.zip_comment e = None
  ∧ CentralDirectoryEnd.length e = 22
  ∧ (r = OK (FileEnd (len content)) ∨ r = Raise (NameError "data")).
Proof.
  intros (self1 & r1 & Hloc & H)%walk_inv Hsome.
  pose proof (local_loop_end _ _ _ _ _ Hloc) as He1. cbn in He1.
  pose proof (local_loop_data _ _ _ _ _ Hloc) as Hd1. cbn in Hd1.
  destruct r1 as [[p1 sig1]|e1]; [|destruct H as [-> _]; congruence].
  destruct H as (self2 & r2 & Hcen & H).
  apply central_loop_Some in Hcen as (Hd2 & _ & He2).
  destruct r2 as [[p2 sig2]|e2]; [|destruct H as [-> _]; congruence].
  destruct H as (r3 & Hend & H).
  destruct r3 as [p3|e3].
  - apply end_record_OK in Hend as [(_ & -> & _) | (e' & _ & He' & -> & _)];
      [congruence|].
    cbn in Hsome. injection Hsome as ->.
    apply central_end_OK in He' as (_ & ? & _ & ? & ? & ?).
    repeat split; try done.
    destruct (tail_report _ p3 sig2) as [rep|e3] eqn:Ht; subst r.
    + apply tail_report_OK in Ht as [-> ->]. cbn. left. congruence.
    + apply tail_report_Raise in Ht as [-> _]. by right.
  - unfold end_record in Hend. destruct (bytes_eqb _ _); [|done].
    destruct (CentralDirectoryEnd.init _); [done|].
    injection Hend as <- _. congruence.
Qed.

Lemma stored_end_record_has_no_comment_witness :
  ∃ self e,
    Zip_init Sample.scenario_D = Some (self, Raise (NameError "data"))
    ∧ central_directory_end self = Some e
    ∧ CentralDirectoryEnd.zip_comment e = None
    ∧ CentralDirectoryEnd.length e = 22.
Proof.
  eexists _, _. split; [vm_compute; reflexivity|]. split; [reflexivity|].
  edestruct (stored_end_record_has_no_comment Sample.scenario_D)
    as (_ & _ & Hcomment & Hlength & _);
    [vm_compute; reflexivity | reflexivity |].
  split; [exact Hcomment | exact Hlength].
Defined.

End WalkResults.

(** ** What the walk stores *)

(** Lookups in a dictionary written down as a chain of insertions. *)
Ltac map_lookup :=
  repeat first
    [ rewrite lookup_insert_eq
    | rewrite lookup_insert_ne by done
    | rewrite lookup_empty ].

Section Stored.

Lemma total_app {A : Type} (f : A → Z) (l : list A) (x : A) :
  total f (l ++ [x]) = total f l + f x.
Proof.
  unfold total. induction l as [|y l IH]; cbn; [lia|]. rewrite IH. lia.
Qed.

Lemma len_slice_le {A : Type} (s : list A) (a b : Z) :
  0 ≤ b - a → len (slice s a b) ≤ b - a.
Proof.
  intros Hab. unfold len, slice. rewrite length_take. lia.
Qed.

(** The dictionary of one iteration of the first loop. *)
Lemma local_entry_shape (data : bytes) (p p' : Z) (zf : gmap string pyval)
    (sig : bytes) :
  0 ≤ p → local_entry data p = OK (zf, p', sig) →
  entry_ok zf ∧ p' = p + entry_size zf.
Proof.
  intros Hp. unfold local_entry. intros H. inv_bind H. destruct a as [zf1 p1].
  apply read_entry_OK in E as (h & Hh & -> & ->). cbn [fst snd] in H.
  pose proof (local_header_OK _ _ Hh) as (Hsig & Hsigh & _ & Hcs & _).
  apply unpack_I_nonneg in Hcs.
  set (d := slice data _ _) in *.
  assert (len d ≤ ZipLocalHeader.compressed_size h) as Hd.
  { subst d. etransitivity; [apply len_slice_le|]; lia. }
  unfold data_descriptor in H. destruct (bytes_eqb _ _).
  - inv_bind H. injection H as <- <- <-. split.
    + exists h, d. repeat split; try (by map_lookup); try (by rewrite Hsigh);
        try (rewrite !dom_insert_L, dom_empty_L; intros x; set_unfold; tauto).
      right. exists a, a0, a1. repeat split; by map_lookup.
    + unfold entry_size. map_lookup. lia.
  - injection H as <- <- <-. split.
    + exists h, d. repeat split; try (by map_lookup); try (by rewrite Hsigh);
        try (rewrite !dom_insert_L, dom_empty_L; intros x; set_unfold; tauto).
      left. repeat split; by map_lookup.
    + unfold entry_size. map_lookup. lia.
Qed.

Lemma local_loop_stored (fuel : nat) (self self' : Zip) (p : Z)
    (r : result (Z * bytes)) :
  0 ≤ p → Forall entry_ok (zipped_files self) →
  local_loop fuel self p = Some (self', r) →
  Forall entry_ok (zipped_files self')
  ∧ ∀ p' sig, r = OK (p', sig) →
      total entry_size (zipped_files self') - total entry_size (zipped_files self)
      = p' - p.
Proof.
  revert self p. induction fuel as [|fuel IH]; intros self p Hp Hok H; [done|].
  cbn [local_loop] in H.
  destruct (local_entry (data self) p) as [[[zf p1] sig1]|e] eqn:E.
  - pose proof (local_entry_OK _ _ _ _ _ E) as [Hp1 _].
    apply local_entry_shape in E as [Hzf Hsize]; [|done].
    assert (Forall entry_ok (zipped_files self ++ [zf])) as Hok'.
    { apply Forall_app. split; [done|]. by apply Forall_singleton. }
    destruct (negb _).
    + injection H as <- <-. cbn [zipped_files]. split; [done|].
      intros p' sig [= <- _]. rewrite total_app. lia.
    + apply IH in H as [Hall Hsum]; [| lia | done]. cbn [zipped_files] in *.
      split; [done|]. intros p' sig Hr. specialize (Hsum _ _ Hr).
      rewrite total_app in Hsum. lia.
  - injection H as <- <-. split; [done|]. intros p' sig [=].
Qed.

Lemma central_loop_stored (fuel : nat) (self self' : Zip) (p p' : Z)
    (sig sig' : bytes) :
  central_loop fuel self p sig = Some (self', OK (p', sig')) →
  total CentralDirectoryHeader.length (central_directory_headers self')
  - total CentralDirectoryHeader.length (central_directory_headers self)
  = p' - p.
Proof.
  revert self p sig. induction fuel as [|fuel IH]; intros self p sig H; [done|].
  cbn [central_loop] in H.
  destruct (negb _).
  - injection H as <- <- <-. lia.
  - destruct (CentralDirectoryHeader.init _) as [h|e]; [|discriminate H].
    apply IH in H. cbn [central_directory_headers] in H.
    rewrite total_app in H. lia.
Qed.

(** Every dictionary the walk has stored, whatever its outcome, holds a
    header with the magic value, a payload no longer than the header's
    compressed size, and either all three or none of the data descriptor's
    values, and no other key. *)
Theorem stored_entries_shape (content : bytes) (self : Zip) (r : result report) :
  Zip_init content = Some (self, r) → Forall entry_ok (zipped_files self).
Proof.
  intros (self1 & r1 & Hloc & H)%walk_inv.
  apply local_loop_stored in Hloc as [Hok _]; [| done | by apply Forall_nil].
  destruct r1 as [[p1 sig1]|e1]; [|by destruct H as [-> _]].
  destruct H as (self2 & r2 & Hcen & H).
  apply central_loop_Some in Hcen as (_ & Hzf2 & _).
  destruct r2 as [[p2 sig2]|e2]; [|destruct H as [-> _]; by rewrite Hzf2].
  destruct H as (r3 & Hend & _).
  apply end_record_fields in Hend as [_ Hzf3]. by rewrite Hzf3, Hzf2.
Qed.

Lemma stored_entries_shape_witness :
  ∃ self r, Zip_init Sample.scenario_C = Some (self, r)
          ∧ Forall entry_ok (zipped_files self).
Proof.
  eexists _, _. split; [vm_compute; reflexivity|].
  eapply (stored_entries_shape Sample.scenario_C). vm_compute. reflexivity.
Defined.

(** A walk that returns has tiled the buffer: the sizes of the stored
    entries (header, declared payload, descriptor), the lengths of the
    stored central directory headers and the length of the end record add
    up to the length of the buffer. *)
Theorem returned_walk_tiles_buffer (content : bytes) (self : Zip) (rep : report) :
  Zip_init content = Some (self, OK rep) →
  total entry_size (zipped_files self)
  + total CentralDirectoryHeader.length (central_directory_headers self)
  + end_size (central_directory_end self)
  = len content.
Proof.
  intros H. pose proof (walk_OK_at_end _ _ _ _ H) as [-> Hdata].
  apply walk_inv in H as (self1 & r1 & Hloc & H).
  pose proof (local_loop_headers _ _ _ _ _ Hloc) as Hh1.
  pose proof (local_loop_end _ _ _ _ _ Hloc) as He1.
  apply local_loop_stored in Hloc as [_ Hsum1]; [| done | by apply Forall_nil].
  cbn in Hh1, He1, Hsum1.
  destruct r1 as [[p1 sig1]|e1]; [|by destruct H].
  specialize (Hsum1 _ _ eq_refl).
  destruct H as (self2 & r2 & Hcen & H).
  pose proof (central_loop_Some _ _ _ _ _ _ Hcen) as (_ & Hzf2 & He2).
  destruct r2 as [[p2 sig2]|e2]; [|by destruct H].
  apply central_loop_stored in Hcen as Hsum2. rewrite Hh1 in Hsum2. cbn in Hsum2.
  destruct H as (r3 & Hend & H).
  destruct r3 as [p3|e3]; [|done].
  symmetry in H. apply tail_report_OK in H as [Hp3 _]. rewrite Hdata in Hp3.
  apply end_record_OK in Hend as [(_ & -> & ->) | (e & _ & He & -> & ->)].
  - rewrite Hzf2, He2, He1. cbn [end_size]. lia.
  - apply central_end_OK in He as (_ & _ & _ & _ & _ & Hlen).
    cbn [zipped_files central_directory_headers central_directory_end end_size].
    rewrite Hzf2, Hlen. lia.
Qed.

Lemma returned_walk_tiles_buffer_witness :
  ∃ self, Zip_init Sample.scenario_C = Some (self, OK (FileEnd 134))
        ∧ total entry_size (zipped_files self)
          + total CentralDirectoryHeader.length (central_directory_headers self)
          + end_size (central_directory_end self)
          = len Sample.scenario_C.
Proof.
  eexists. split; [vm_compute; reflexivity|].
  eapply (returned_walk_tiles_buffer Sample.scenario_C). vm_compute. reflexivity.
Defined.

End Stored.

(** ** Records and the bytes around them *)

Section Locality.

Lemma slice_beyond {A : Type} (s : list A) (a b : Z) :
  len s ≤ a → slice s a b = [].
Proof.
  intros Ha. unfold slice, len in *. rewrite drop_ge by lia. apply take_nil.
Qed.

(** A slice that ends inside the first [n] elements is a slice of them. *)
Lemma slice_take {A : Type} (s : list A) (n : nat) (a b : Z) :
  0 ≤ a → b ≤ Z.of_nat n → slice (take n s) a b = slice s a b.
Proof.
  intros Ha Hb. unfold slice.
  destruct (decide (a ≤ b)) as [Hab|Hab].
  - rewrite !take_drop_commute, take_take. do 2 f_equal. lia.
  - replace (Z.to_nat (b - a)) with 0%nat by lia. by rewrite !take_0.
Qed.

Lemma slice_agree {A : Type} (s t : list A) (n : nat) (a b : Z) :
  take n t = take n s → 0 ≤ a → b ≤ Z.of_nat n → slice t a b = slice s a b.
Proof.
  intros Heq Ha Hb.
  rewrite <- (slice_take t n), <- (slice_take s n) by lia. by rewrite Heq.
Qed.

Lemma len_agree {A : Type} (s t : list A) (n : Z) :
  take (Z.to_nat n) t = take (Z.to_nat n) s → n ≤ len s → n ≤ len t.
Proof.
  intros Heq Hn. apply (f_equal List.length) in Heq.
  rewrite !length_take in Heq. unfold len in *. lia.
Qed.

Lemma local_header_agree (data data' : bytes) (h : ZipLocalHeader.t) :
  ZipLocalHeader.init data = OK h →
  ZipLocalHeader.length h ≤ len data →
  take (Z.to_nat (ZipLocalHeader.length h)) data'
  = take (Z.to_nat (ZipLocalHeader.length h)) data →
  ZipLocalHeader.init data' = OK h.
Proof.
  intros H Hlen Heq.
  pose proof (local_header_inside data h H) as H30.
  pose proof (local_header_OK data h H)
    as (Hsig & _ & _ & _ & Hfl & Hefl & _ & _ & _ & Hl).
  apply unpack_H_OK in Hfl as [_ Hfl], Hefl as [_ Hefl].
  pose proof (le_value_nonneg (slice data 26 28)).
  pose proof (le_value_nonneg (slice data 28 30)).
  rewrite (local_header_complete data Hsig H30) in H. injection H as <-.
  cbn [ZipLocalHeader.length ZipLocalHeader.filename_length
       ZipLocalHeader.extra_field_length] in *.
  set (n := Z.to_nat _) in Heq.
  rewrite local_header_complete.
  - cbn zeta. rewrite !(slice_agree data data' n) by (done || lia).
    reflexivity.
  - by rewrite (slice_agree data data' n) by (done || lia).
  - apply (len_agree data data' 30); [|lia].
    apply (f_equal (take 30)) in Heq. rewrite !take_take in Heq.
    by replace (30 `min` n)%nat with (Z.to_nat 30) in Heq by lia.
Qed.

Lemma central_header_agree (data data' : bytes) (h : CentralDirectoryHeader.t) :
  CentralDirectoryHeader.init data = OK h →
  CentralDirectoryHeader.length h ≤ len data →
  take (Z.to_nat (CentralDirectoryHeader.length h)) data'
  = take (Z.to_nat (CentralDirectoryHeader.length h)) data →
  CentralDirectoryHeader.init data' = OK h.
Proof.
  intros H Hlen Heq.
  pose proof (central_header_inside data h H) as H46.
  pose proof (central_header_OK data h H) as (Hsig & Hfl & Hefl & Hcl & _ & Hl).
  pose proof (unpack_H_nonneg _ _ Hfl). pose proof (unpack_H_nonneg _ _ Hefl).
  pose proof (unpack_H_nonneg _ _ Hcl).
  apply unpack_H_OK in Hfl as [_ Hfl], Hefl as [_ Hefl], Hcl as [_ Hcl].
  set (n := Z.to_nat _) in Heq.
  assert (46 ≤ len data') as H46'.
  { apply (len_agree data data' 46); [|lia].
    apply (f_equal (take 46)) in Heq. rewrite !take_take in Heq.
    by replace (46 `min` n)%nat with (Z.to_nat 46) in Heq by lia. }
  revert H. unfold CentralDirectoryHeader.init.
  rewrite !(slice_agree data data' n) by (done || lia).
  rewrite Hsig, bytes_eqb_refl. cbn [negb].
  rewrite !(unpack_H_slice data), !(unpack_I_slice data) by lia.
  cbn [bind]. intros [= <-].
  cbn [CentralDirectoryHeader.length CentralDirectoryHeader.filename_length
       CentralDirectoryHeader.extra_field_length
       CentralDirectoryHeader.comment_length] in *.
  rewrite !(slice_agree data data' n) by (done || lia). reflexivity.
Qed.

Lemma central_end_agree (data data' : bytes) (e : CentralDirectoryEnd.t) :
  CentralDirectoryEnd.init data = OK e →
  take 22 data' = take 22 data →
  CentralDirectoryEnd.init data' = OK e.
Proof.
  intros H Heq.
  pose proof (central_end_OK data e H) as (Hsig & _ & H22 & _).
  revert H. unfold CentralDirectoryEnd.init.
  rewrite !(slice_agree data data' 22) by (done || lia).
  rewrite Hsig, bytes_eqb_refl. cbn [negb].
  rewrite !(unpack_H_slice data), !(unpack_I_slice data) by lia.
  cbn [bind]. destruct (0 <? _); [by rewrite !load_zip_comment_length|].
  cbn [bind]. done.
Qed.

(** A record that lies in the buffer is parsed from its own bytes alone:
    any buffer that starts with the same [length] bytes gives the same
    record.  For the end record these are its 22 bytes. *)
Theorem record_depends_on_its_bytes :
  (∀ (data data' : bytes) (h : ZipLocalHeader.t),
     ZipLocalHeader.init data = OK h →
     ZipLocalHeader.length h ≤ len data →
     take (Z.to_nat (ZipLocalHeader.length h)) data'
     = take (Z.to_nat (ZipLocalHeader.length h)) data →
     ZipLocalHeader.init data' = OK h)
  ∧ (∀ (data data' : bytes) (h : CentralDirectoryHeader.t),
       CentralDirectoryHeader.init data = OK h →
       CentralDirectoryHeader.length h ≤ len data →
       take (Z.to_nat (CentralDirectoryHeader.length h)) data'
       = take (Z.to_nat (CentralDirectoryHeader.length h)) data →
       CentralDirectoryHeader.init data' = OK h)
  ∧ (∀ (data data' : bytes) (e : CentralDirectoryEnd.t),
       CentralDirectoryEnd.init data = OK e →
       take (Z.to_nat (CentralDirectoryEnd.length e)) data'
       = take (Z.to_nat (CentralDirectoryEnd.length e)) data →
       CentralDirectoryEnd.init data' = OK e).
Proof.
  split; [|split].
  - apply local_header_agree.
  - apply central_header_agree.
  - intros data data' e H Heq. apply (central_end_agree data); [done|].
    apply central_end_OK in H as (_ & _ & _ & _ & _ & Hl).
    by rewrite Hl in Heq.
Qed.

Lemma record_depends_on_its_bytes_witness :
  (∃ h, ZipLocalHeader.init (take 35 Sample.scenario_A ++ Sample.overlay8) = OK h
      ∧ ZipLocalHeader.init Sample.scenario_A = OK h)
  ∧ (∃ h, CentralDirectoryHeader.init (Sample.central_header 0 ++ Sample.overlay8)
          = OK h
        ∧ CentralDirectoryHeader.init (Sample.central_header 0) = OK h)
  ∧ (∃ e, CentralDirectoryEnd.init (Sample.central_end 51 45 [] ++ Sample.overlay8)
          = OK e
        ∧ CentralDirectoryEnd.init (Sample.central_end 51 45 []) = OK e).
Proof.
  destruct record_depends_on_its_bytes as (Hloc & Hcen & Hend).
  split; [|split].
  - eexists. split; [|vm_compute; reflexivity].
    apply (Hloc Sample.scenario_A);
      [vm_compute; reflexivity | by vm_compute | reflexivity].
  - eexists. split; [|vm_compute; reflexivity].
    apply (Hcen (Sample.central_header 0));
      [vm_compute; reflexivity | by vm_compute | reflexivity].
  - eexists. split; [|vm_compute; reflexivity].
    apply (Hend (Sample.central_end 51 45 []));
      [vm_compute; reflexivity | reflexivity].
Defined.

Lemma slice_from_app {A : Type} (s t : list A) (p : Z) :
  p ≤ len s → slice_from (s ++ t) p = slice_from s p ++ t.
Proof.
  intros Hp. unfold slice_from, len in *. rewrite drop_app_le by lia. done.
Qed.

Lemma local_header_app (data extra : bytes) (p : Z) (h : ZipLocalHeader.t) :
  0 ≤ p →
  ZipLocalHeader.init (slice_from data p) = OK h →
  p + ZipLocalHeader.length h ≤ len data →
  ZipLocalHeader.init (slice_from (data ++ extra) p) = OK h.
Proof.
  intros Hp H Hlen.
  pose proof (local_header_inside _ _ H) as H30.
  pose proof (len_slice_from data p Hp ltac:(lia)) as Hrest.
  rewrite slice_from_app by lia.
  apply (local_header_agree (slice_from data p)); [done | lia |].
  apply take_app_le. unfold len in *. lia.
Qed.

Lemma central_header_app (data extra : bytes) (p : Z)
    (h : CentralDirectoryHeader.t) :
  0 ≤ p →
  CentralDirectoryHeader.init (slice_from data p) = OK h →
  p + CentralDirectoryHeader.length h ≤ len data →
  CentralDirectoryHeader.init (slice_from (data ++ extra) p) = OK h.
Proof.
  intros Hp H Hlen.
  pose proof (central_header_inside _ _ H) as H46.
  pose proof (len_slice_from data p Hp ltac:(lia)) as Hrest.
  rewrite slice_from_app by lia.
  apply (central_header_agree (slice_from data p)); [done | lia |].
  apply take_app_le. unfold len in *. lia.
Qed.

Lemma central_end_app (data extra : bytes) (p : Z) (e : CentralDirectoryEnd.t) :
  0 ≤ p →
  CentralDirectoryEnd.init (slice_from data p) = OK e →
  CentralDirectoryEnd.init (slice_from (data ++ extra) p) = OK e.
Proof.
  intros Hp H.
  pose proof (central_end_OK _ _ H) as (_ & _ & H22 & _).
  pose proof (len_slice_from data p Hp ltac:(lia)) as Hrest.
  rewrite slice_from_app by lia.
  apply (central_end_agree (slice_from data p)); [done|].
  apply take_app_le. unfold len in *. lia.
Qed.

(** One iteration of the first loop reads nothing behind the 4 bytes of the
    signature it ends with. *)
Lemma local_entry_app (data extra : bytes) (p p' : Z) (zf : gmap string pyval)
    (sig : bytes) :
  0 ≤ p → local_entry data p = OK (zf, p', sig) → p' + 4 ≤ len data →
  local_entry (data ++ extra) p = OK (zf, p', sig).
Proof.
  intros Hp H Hlen. unfold local_entry in *. inv_bind H. destruct a as [zf1 p1].
  pose proof (data_descriptor_OK _ _ _ _ _ _ H) as [Hp1 _]. cbn [fst snd] in *.
  pose proof (read_entry_OK _ _ _ _ E) as (h & Hh & -> & ->).
  pose proof (local_header_OK _ _ Hh) as (_ & _ & _ & Hcs & Hfl & Hefl & _ & _ & _ & Hl).
  apply unpack_I_nonneg in Hcs. apply unpack_H_nonneg in Hfl, Hefl.
  unfold read_entry.
  rewrite (local_header_app data extra p h) by (done || lia).
  cbn [bind fst snd]. rewrite slice_app_inside by lia.
  revert H. unfold data_descriptor.
  rewrite (slice_app_inside data extra) by lia.
  destruct (bytes_eqb _ _); [|done].
  intros H. destruct Hp1 as [Hp1|Hp1].
  { inv_bind H. injection H as _ Hbad _. lia. }
  rewrite !(slice_app_inside data extra) by lia. done.
Qed.

Lemma local_loop_app (fuel : nat) (self self' : Zip) (extra : bytes) (p p' : Z)
    (sig : bytes) :
  0 ≤ p →
  local_loop fuel self p = Some (self', OK (p', sig)) →
  p' + 4 ≤ len (data self) →
  p ≤ p'
  ∧ local_loop fuel
      (mkZip (data self ++ extra) (zipped_files self)
         (central_directory_headers self) (central_directory_end self)) p
    = Some (mkZip (data self ++ extra) (zipped_files self')
              (central_directory_headers self') (central_directory_end self'),
            OK (p', sig)).
Proof.
  revert self p. induction fuel as [|fuel IH]; intros self p Hp H Hlen; [done|].
  cbn [local_loop data] in *.
  destruct (local_entry (data self) p) as [[[zf p1] sig1]|e] eqn:E; [|done].
  pose proof (local_entry_OK _ _ _ _ _ E) as [Hp1 _].
  destruct (negb (bytes_eqb sig1 sig_local_header)) eqn:Hsig.
  - injection H as <- <- <-.
    rewrite (local_entry_app _ extra _ _ _ _ Hp E Hlen), Hsig.
    split; [lia | done].
  - apply IH in H as [Hmono H]; [| lia | done]. cbn in Hmono, H.
    rewrite (local_entry_app _ extra _ _ _ _ Hp E ltac:(lia)), Hsig.
    split; [lia | done].
Qed.

Lemma central_loop_app (fuel : nat) (self self' : Zip) (extra : bytes)
    (p p' : Z) (sig sig' : bytes) :
  0 ≤ p → sig = slice (data self) p (p + 4) →
  central_loop fuel self p sig = Some (self', OK (p', sig')) →
  p' + 4 ≤ len (data self) →
  central_loop fuel
    (mkZip (data self ++ extra) (zipped_files self)
       (central_directory_headers self) (central_directory_end self)) p sig
  = Some (mkZip (data self ++ extra) (zipped_files self')
            (central_directory_headers self') (central_directory_end self'),
          OK (p', sig')).
Proof.
  revert self p sig.
  induction fuel as [|fuel IH]; intros self p sig Hp Hs H Hlen; [done|].
  cbn [central_loop data] in *.
  destruct (negb (bytes_eqb sig sig_central_header)); [by injection H as <- <- <-|].
  destruct (CentralDirectoryHeader.init _) as [h|e] eqn:E; [|done].
  pose proof (central_header_OK _ _ E) as (_ & Hfl & Hefl & Hcl & _ & Hl).
  apply unpack_H_nonneg in Hfl, Hefl, Hcl.
  assert (p + CentralDirectoryHeader.length h ≤ p') as Hmono.
  { apply central_loop_OK in H as (Hmono & _); [done | lia | done]. }
  rewrite (central_header_app _ extra _ _ Hp E) by lia.
  rewrite (slice_app_inside _ extra) by lia.
  apply IH in H; cbn [data] in *; [done | lia | done | done].
Qed.

(** Bytes appended behind a walk that returned with an end record change
    nothing of what is stored, and turn the outcome into the [NameError]:
    the entries, the central directory headers and the end record are the
    same, and where the overlay was to be reported the walk raises. *)
Theorem appended_bytes_raise_name_error (content extra : bytes) (self : Zip)
    (rep : report) :
  Zip_init content = Some (self, OK rep) →
  is_Some (central_directory_end self) →
  extra ≠ [] →
  Zip_init (content ++ extra) =
    Some (mkZip (content ++ extra) (zipped_files self)
            (central_directory_headers self) (central_directory_end self),
          Raise (NameError "data")).
Proof.
  intros H Hend Hextra.
  pose proof (walk_OK_at_end _ _ _ _ H) as [-> Hdata].
  apply (walk_more_fuel _ (S (List.length (content ++ extra)))) in H;
    [|rewrite length_app; lia].
  unfold Zip_init. set (fuel := S (List.length (content ++ extra))) in *.
  apply walk_inv in H as (self1 & r1 & Hloc & H).
  destruct r1 as [[p1 sig1]|e1]; [|by destruct H].
  destruct H as (self2 & r2 & Hcen & H).
  destruct r2 as [[p2 sig2]|e2]; [|by destruct H].
  destruct H as (r3 & Hrec & H).
  destruct r3 as [p3|e3]; [|done].
  pose proof (local_loop_data _ _ _ _ _ Hloc) as Hd1. cbn [data] in Hd1.
  pose proof (local_loop_end _ _ _ _ _ Hloc) as He1. cbn in He1.
  pose proof (local_loop_OK _ _ _ _ _ _ (Z.le_refl 0) Hloc) as (Hp1 & Hs1 & _).
  cbn [data] in Hs1.
  pose proof (central_loop_Some _ _ _ _ _ _ Hcen) as (Hd2 & _ & He2).
  pose proof (central_loop_OK _ _ _ _ _ _ _ Hp1 ltac:(by rewrite Hd1) Hcen)
    as (Hp2 & Hs2 & _).
  apply end_record_OK in Hrec as [(_ & -> & _) | (e & Hsig2 & He & -> & ->)].
  { destruct Hend as [e He]. congruence. }
  symmetry in H. apply tail_report_OK in H as [Hp3 _]. cbn [data] in Hp3.
  rewrite Hd2, Hd1 in *.
  assert (p2 + 4 ≤ len content) as Hin2.
  { apply (signature_inside content p2 sig_central_end); [lia | done |].
    apply bytes_eqb_eq. congruence. }
  assert (p1 + 4 ≤ len content) as Hin1.
  { destruct (bytes_eqb sig1 sig_central_header) eqn:Heq.
    - apply (signature_inside content p1 sig_central_header); [lia | done |].
      congruence.
    - subst fuel. cbn [central_loop] in Hcen.
      rewrite Heq in Hcen. cbn [negb] in Hcen.
      injection Hcen as _ <- _. done. }
  apply (local_loop_app _ _ _ extra) in Hloc as [_ Hloc]; [| done | done].
  cbn [data zipped_files central_directory_headers central_directory_end] in Hloc.
  unfold walk. rewrite Hloc.
  apply (central_loop_app _ _ _ extra) in Hcen;
    [| done | by rewrite Hd1 | by rewrite Hd1].
  rewrite Hd1 in Hcen. rewrite Hcen.
  unfold end_record. cbn [data].
  rewrite Hsig2, bytes_eqb_refl.
  rewrite (central_end_app content extra p2 e) by (done || lia).
  cbn [CentralDirectoryEnd.length].
  pose proof (central_end_OK _ _ He) as (_ & _ & _ & _ & _ & ->).
  rewrite tail_report_not_at_end; [done|].
  cbn [data]. unfold len in *. rewrite length_app.
  destruct extra; [done|]. cbn [List.length]. lia.
Qed.

Lemma appended_bytes_raise_name_error_witness :
  ∃ self,
    Zip_init Sample.scenario_C = Some (self, OK (FileEnd 134))
    ∧ Zip_init (Sample.scenario_C ++ Sample.overlay8) =
        Some (mkZip (Sample.scenario_C ++ Sample.overlay8) (zipped_files self)
                (central_directory_headers self) (central_directory_end self),
              Raise (NameError "data")).
Proof.
  eexists. split; [vm_compute; reflexivity|].
  apply (appended_bytes_raise_name_error Sample.scenario_C Sample.overlay8 _
           (FileEnd 134));
    [vm_compute; reflexivity | by eexists | done].
Defined.

End Locality.

(** ** The extent of a record *)

Section Extent.

Lemma slice_split {A : Type} (s : list A) (a b c : Z) :
  0 ≤ a → a ≤ b → b ≤ c → slice s a c = slice s a b ++ slice s b c.
Proof.
  intros Ha Hab Hbc. unfold slice.
  replace (Z.to_nat (c - a)) with (Z.to_nat (b - a) + Z.to_nat (c - b))%nat by lia.
  rewrite <- take_take_drop, drop_drop. do 3 f_equal. lia.
Qed.

Lemma slice_empty {A : Type} (s : list A) (a : Z) : slice s a a = [].
Proof. unfold slice. by rewrite Z.sub_diag. Qed.

Lemma len_slice_inside {A : Type} (s : list A) (a b : Z) :
  0 ≤ a → a ≤ b → b ≤ len s → len (slice s a b) = b - a.
Proof.
  intros Ha Hab Hb. unfold len at 1. rewrite length_slice by done. lia.
Qed.

(** A field read after its length: all of its bytes when they are in the
    buffer, and no string for the length 0. *)
Lemma field_inside (data : bytes) (a n : Z) :
  0 ≤ a → 0 ≤ n → a + n ≤ len data →
  field_bytes (if 0 <? n then Some (slice data a (a + n)) else None)
  = slice data a (a + n)
  ∧ len (slice data a (a + n)) = n.
Proof.
  intros Ha Hn Hlen. split; [|rewrite len_slice_inside; lia].
  destruct (0 <? n) eqn:Hpos; [done|].
  apply Z.ltb_ge in Hpos. replace n with 0 by lia.
  by rewrite Z.add_0_r, slice_empty.
Qed.

(** The [length] of a record that lies in the buffer is the number of bytes
    it is made of: the fixed part and the strings, in their order, are the
    first [length] bytes, and every string has its declared length. *)
Theorem record_covers_its_bytes :
  (∀ (data : bytes) (h : ZipLocalHeader.t),
     ZipLocalHeader.init data = OK h →
     ZipLocalHeader.length h ≤ len data →
     slice data 0 (ZipLocalHeader.length h)
     = slice data 0 30 ++ field_bytes (ZipLocalHeader.filename h)
       ++ field_bytes (ZipLocalHeader.extra_field h)
     ∧ len (field_bytes (ZipLocalHeader.filename h))
       = ZipLocalHeader.filename_length h
     ∧ len (field_bytes (ZipLocalHeader.extra_field h))
       = ZipLocalHeader.extra_field_length h)
  ∧ (∀ (data : bytes) (h : CentralDirectoryHeader.t),
       CentralDirectoryHeader.init data = OK h →
       CentralDirectoryHeader.length h ≤ len data →
       slice data 0 (CentralDirectoryHeader.length h)
       = slice data 0 46 ++ field_bytes (CentralDirectoryHeader.filename h)
         ++ field_bytes (CentralDirectoryHeader.extra_field h)
         ++ field_bytes (CentralDirectoryHeader.comment h)
       ∧ len (field_bytes (CentralDirectoryHeader.filename h))
         = CentralDirectoryHeader.filename_length h
       ∧ len (field_bytes (CentralDirectoryHeader.extra_field h))
         = CentralDirectoryHeader.extra_field_length h
       ∧ len (field_bytes (CentralDirectoryHeader.comment h))
         = CentralDirectoryHeader.comment_length h).
Proof.
  split.
  - intros data h H Hlen.
    pose proof (local_header_OK data h H)
      as (_ & _ & _ & _ & Hfl & Hefl & Hf & He & _ & Hl).
    apply unpack_H_nonneg in Hfl, Hefl.
    rewrite Hf, He, Hl.
    set (fl := ZipLocalHeader.filename_length h) in *.
    set (efl := ZipLocalHeader.extra_field_length h) in *.
    destruct (field_inside data 30 fl) as [-> ->]; [lia..|].
    destruct (field_inside data (30 + fl) efl) as [-> ->]; [lia..|].
    split; [|done].
    rewrite (slice_split data 0 30 (30 + fl + efl)) by lia.
    by rewrite (slice_split data 30 (30 + fl) (30 + fl + efl)) by lia.
  - intros data h. unfold CentralDirectoryHeader.init.
    destruct (bytes_eqb _ _); cbn [negb]; [|done].
    intros H. inv_bind H. injection H as <-.
    cbn [CentralDirectoryHeader.length CentralDirectoryHeader.filename
         CentralDirectoryHeader.extra_field CentralDirectoryHeader.comment
         CentralDirectoryHeader.filename_length
         CentralDirectoryHeader.extra_field_length
         CentralDirectoryHeader.comment_length].
    intros Hlen.
    apply unpack_H_nonneg in E8, E9, E10.
    destruct (field_inside data 46 a8) as [-> ->]; [lia..|].
    destruct (field_inside data (46 + a8) a9) as [-> ->]; [lia..|].
    destruct (field_inside data (46 + a8 + a9) a10) as [-> ->]; [lia..|].
    split; [|done].
    rewrite (slice_split data 0 46 (46 + a8 + a9 + a10)) by lia.
    rewrite (slice_split data 46 (46 + a8) (46 + a8 + a9 + a10)) by lia.
    by rewrite (slice_split data (46 + a8) (46 + a8 + a9) (46 + a8 + a9 + a10))
      by lia.
Qed.

Lemma record_covers_its_bytes_witness :
  (∃ h, ZipLocalHeader.init Sample.scenario_A = OK h
      ∧ slice Sample.scenario_A 0 (ZipLocalHeader.length h)
        = slice Sample.scenario_A 0 30
          ++ field_bytes (ZipLocalHeader.filename h)
          ++ field_bytes (ZipLocalHeader.extra_field h))
  ∧ (∃ h, CentralDirectoryHeader.init (Sample.central_header 0) = OK h
        ∧ len (field_bytes (CentralDirectoryHeader.filename h))
          = CentralDirectoryHeader.filename_length h).
Proof.
  destruct record_covers_its_bytes as (Hloc & Hcen).
  split.
  - eexists. split; [vm_compute; reflexivity|].
    eapply (Hloc Sample.scenario_A); [vm_compute; reflexivity | by vm_compute].
  - eexists. split; [vm_compute; reflexivity|].
    eapply (Hcen (Sample.central_header 0));
      [vm_compute; reflexivity | by vm_compute].
Defined.

(** A buffer that ends inside the extent its first header declares, or
    right behind it, raises no error for the missing bytes.  The walk stores
    that one entry, with whatever payload is there, finds no signature, and
    either reports the end of the file (the extent ends where the buffer
    ends: an archive without central directory is taken as it is) or raises
    the [NameError] of the last statement. *)
Theorem entry_reaching_buffer_end (content : bytes) :
  slice content 0 4 = sig_local_header → 30 ≤ len content →
  len content ≤ 30 + le_value (slice content 26 28)
                + le_value (slice content 28 30) + le_value (slice content 18 22) →
  ∃ self,
    Zip_init content =
      Some (self,
            if 30 + le_value (slice content 26 28)
               + le_value (slice content 28 30) + le_value (slice content 18 22)
               =? len content
            then OK (FileEnd (len content))
            else Raise (NameError "data"))
    ∧ List.length (zipped_files self) = 1%nat
    ∧ central_directory_headers self = []
    ∧ central_directory_end self = None.
Proof.
  intros Hsig H30 Hend.
  unfold Zip_init, walk. cbn [local_loop data].
  unfold local_entry, read_entry.
  rewrite slice_from_0, (local_header_complete content Hsig H30).
  cbn zeta. cbn [bind ZipLocalHeader.length ZipLocalHeader.compressed_size fst snd].
  set (size := 30 + _ + _ + _) in *.
  replace (0 + (30 + le_value (slice content 26 28) + le_value (slice content 28 30))
           + le_value (slice content 18 22)) with size by (subst size; lia).
  unfold data_descriptor. rewrite (slice_beyond content size) by lia.
  change (bytes_eqb [] sig_data_descriptor) with false.
  change (bytes_eqb [] sig_local_header) with false.
  cbn [negb central_loop].
  change (bytes_eqb [] sig_central_header) with false.
  unfold end_record.
  change (bytes_eqb [] sig_central_end) with false.
  cbn [negb].
  eexists. split.
  - do 2 f_equal.
    destruct (size =? len content) eqn:Heq.
    + apply Z.eqb_eq in Heq. rewrite Heq. apply tail_report_at_end.
    + apply Z.eqb_neq in Heq. by apply tail_report_not_at_end.
  - done.
Qed.

Lemma entry_reaching_buffer_end_witness :
  ∃ self,
    Zip_init Sample.scenario_F = Some (self, Raise (NameError "data"))
    ∧ List.length (zipped_files self) = 1%nat
    ∧ central_directory_headers self = []
    ∧ central_directory_end self = None.
Proof.
  apply (entry_reaching_buffer_end Sample.scenario_F);
    [reflexivity | by vm_compute | by vm_compute].
Defined.

End Extent.

(** ** The values of the fields *)

Section Values.

Lemma land_byte_shiftl (b : byte) (v : Z) :
  Z.land (byte_val b) (Z.shiftl v 8) = 0.
Proof.
  pose proof (byte_val_bounds b) as Hb.
  assert (Z.land (byte_val b) (Z.ones 8) = byte_val b) as <-.
  { rewrite Z.land_ones by lia. apply Z.mod_small. change (2 ^ 8) with 256. lia. }
  rewrite <- Z.land_assoc, (Z.land_comm (Z.ones 8)), Z.land_ones by lia.
  rewrite Z.shiftl_mul_pow2 by lia. rewrite Z.mod_mul by lia.
  apply Z.land_0_r.
Qed.

(** The little-endian value, byte by byte. *)
Lemma le_value_cons (b : byte) (s : bytes) :
  le_value (b :: s) = byte_val b + 256 * le_value s.
Proof.
  cbn [le_value].
  rewrite <- Z.lxor_lor by apply land_byte_shiftl.
  rewrite <- Z.add_nocarry_lxor by apply land_byte_shiftl.
  rewrite Z.shiftl_mul_pow2 by lia. change (2 ^ 8) with 256. lia.
Qed.







End Values.

(** ** Reading back a record that was written *)

Section RoundTrip.

Lemma byte_val_byte_of (n : Z) : byte_val (Sample.byte_of n) = n mod 256.
Proof.
  unfold byte_val, Sample.byte_of.
  pose proof (Z.mod_pos_bound n 256 ltac:(lia)) as Hm.
  destruct (Byte.of_N (Z.to_N (n mod 256))) as [b|] eqn:E.
  - apply Byte.to_of_N in E. change (default x00 (Some b)) with b.
    rewrite E. lia.
  - apply Byte.of_N_None_iff in E. lia.
Qed.

Lemma le_value_u16 (n : Z) : 0 ≤ n < 65536 → le_value (Sample.u16 n) = n.
Proof.
  intros Hn. unfold Sample.u16. rewrite !le_value_cons. cbn [le_value].
  rewrite !byte_val_byte_of.
  rewrite (Z.mod_small (n / 256)) by (split; [apply Z.div_pos | apply Z.div_lt_upper_bound]; lia).
  pose proof (Z.div_mod n 256 ltac:(lia)). lia.
Qed.

Lemma le_value_u32 (n : Z) : 0 ≤ n < 4294967296 → le_value (Sample.u32 n) = n.
Proof.
  intros Hn. unfold Sample.u32. rewrite !le_value_cons. cbn [le_value].
  rewrite !byte_val_byte_of.
  rewrite (Z.mod_small (n / 16777216))
    by (split; [apply Z.div_pos | apply Z.div_lt_upper_bound]; lia).
  replace (n / 65536) with (n / 256 / 256) by (rewrite Z.div_div by lia; done).
  replace (n / 16777216) with (n / 256 / 256 / 256)
    by (rewrite !Z.div_div by lia; done).
  pose proof (Z.div_mod n 256 ltac:(lia)).
  pose proof (Z.div_mod (n / 256) 256 ltac:(lia)).
  pose proof (Z.div_mod (n / 256 / 256) 256 ltac:(lia)).
  lia.
Qed.

Lemma slice_behind_prefix {A : Type} (a b : list A) (x y : Z) :
  len a ≤ x → slice (a ++ b) x y = slice b (x - len a) (y - len a).
Proof.
  intros Hx. unfold slice, len in *.
  rewrite drop_app_ge by lia. do 2 f_equal; lia.
Qed.

Lemma slice_prefix {A : Type} (a b : list A) : slice (a ++ b) 0 (len a) = a.
Proof.
  unfold slice, len. rewrite Z.sub_0_r, Nat2Z.id.
  change (Z.to_nat 0) with 0%nat. rewrite drop_0. apply take_app_length.
Qed.

Lemma stored_field (s t : bytes) :
  (if 0 <? len s then Some (slice (s ++ t) 0 (len s)) else None)
  = Sample.stored s.
Proof.
  destruct s as [|b s]; [done|].
  rewrite slice_prefix. unfold len. cbn [List.length Sample.stored].
  by destruct (0 <? _) eqn:E; [|apply Z.ltb_ge in E; lia].
Qed.

Lemma stored_field_behind (a s t : bytes) (n : Z) :
  len a = n →
  (if 0 <? len s then Some (slice (a ++ s ++ t) n (n + len s)) else None)
  = Sample.stored s.
Proof.
  intros <-. rewrite slice_behind_prefix by lia.
  replace (len a - len a) with 0 by lia.
  replace (len a + len s - len a) with (len s) by lia.
  apply stored_field.
Qed.

Lemma encrypted_odd (flag : Z) : negb (Z.land flag 1 =? 0) = Z.odd flag.
Proof.
  rewrite land_1_testbit, Z.bit0_odd. by destruct (Z.odd flag).
Qed.

(** A local header written in the layout of the ZIP format, with every
    field in the range of its width and strings shorter than 65536 bytes,
    is read back field by field, whatever follows it in the buffer: the
    strings come back as written (an empty one as no string), [encrypted]
    is the lowest bit of the flag, and [length] is the number of bytes
    written. *)
Theorem local_header_round_trip
    (version flag method time date crc csize usize : Z)
    (filename extra rest : bytes) :
  0 ≤ version < 65536 → 0 ≤ flag < 65536 → 0 ≤ method < 65536 →
  0 ≤ time < 65536 → 0 ≤ date < 65536 →
  0 ≤ crc < 4294967296 → 0 ≤ csize < 4294967296 → 0 ≤ usize < 4294967296 →
  len filename < 65536 → len extra < 65536 →
  ZipLocalHeader.init
    (Sample.encode_local_header version flag method time date crc csize usize
       filename extra ++ rest)
  = OK (ZipLocalHeader.mk sig_local_header version flag method time date crc
          csize usize (len filename) (len extra)
          (Sample.stored filename) (Sample.stored extra) (Z.odd flag)
          (30 + len filename + len extra))
  ∧ len (Sample.encode_local_header version flag method time date crc csize
           usize filename extra)
    = 30 + len filename + len extra.
Proof.
  intros Hv Hf Hm Ht Hd Hc Hcs Hus Hfl Hefl.
  assert (0 ≤ len filename ∧ 0 ≤ len extra) as [Hfl0 Hefl0] by (unfold len; lia).
  split; [|unfold Sample.encode_local_header, len; rewrite !length_app; cbn; lia].
  set (data := _ ++ rest).
  set (fixed := sig_local_header ++ Sample.u16 version ++ Sample.u16 flag
                ++ Sample.u16 method ++ Sample.u16 time ++ Sample.u16 date
                ++ Sample.u32 crc ++ Sample.u32 csize ++ Sample.u32 usize
                ++ Sample.u16 (len filename) ++ Sample.u16 (len extra)).
  assert (data = fixed ++ filename ++ extra ++ rest) as Hshape.
  { subst data fixed. unfold Sample.encode_local_header.
    by rewrite <- !app_assoc. }
  assert (len fixed = 30) as Hfixed by reflexivity.
  rewrite local_header_complete;
    [| reflexivity
     | rewrite Hshape; unfold len in *; rewrite length_app; lia].
  cbn zeta.
  assert (le_value (slice data 4 6) = version) as -> by exact (le_value_u16 _ Hv).
  assert (le_value (slice data 6 8) = flag) as -> by exact (le_value_u16 _ Hf).
  assert (le_value (slice data 8 10) = method) as -> by exact (le_value_u16 _ Hm).
  assert (le_value (slice data 10 12) = time) as -> by exact (le_value_u16 _ Ht).
  assert (le_value (slice data 12 14) = date) as -> by exact (le_value_u16 _ Hd).
  assert (le_value (slice data 14 18) = crc) as -> by exact (le_value_u32 _ Hc).
  assert (le_value (slice data 18 22) = csize) as -> by exact (le_value_u32 _ Hcs).
  assert (le_value (slice data 22 26) = usize) as -> by exact (le_value_u32 _ Hus).
  assert (le_value (slice data 26 28) = len filename) as ->
    by exact (le_value_u16 _ (conj Hfl0 Hfl)).
  assert (le_value (slice data 28 30) = len extra) as ->
    by exact (le_value_u16 _ (conj Hefl0 Hefl)).
  assert (slice data 0 4 = sig_local_header) as -> by reflexivity.
  rewrite encrypted_odd, Hshape.
  rewrite (stored_field_behind fixed filename (extra ++ rest) 30 Hfixed).
  replace (fixed ++ filename ++ extra ++ rest)
    with ((fixed ++ filename) ++ extra ++ rest) by (by rewrite <- app_assoc).
  rewrite (stored_field_behind (fixed ++ filename) extra rest (30 + len filename));
    [done|].
  unfold len in *. rewrite length_app. lia.
Qed.

Lemma local_header_round_trip_witness :
  ∃ h, ZipLocalHeader.init
         (Sample.encode_local_header 20 9 8 0 0 305419896 10 20
            Sample.name_a_txt [] ++ Sample.payload10) = OK h
     ∧ ZipLocalHeader.crc32 h = 305419896
     ∧ ZipLocalHeader.filename h = Some Sample.name_a_txt
     ∧ ZipLocalHeader.extra_field h = None
     ∧ ZipLocalHeader.encrypted h = true
     ∧ ZipLocalHeader.length h = 35.
Proof.
  eexists. split.
  - apply (local_header_round_trip 20 9 8 0 0 305419896 10 20
             Sample.name_a_txt [] Sample.payload10); by vm_compute.
  - by vm_compute.
Defined.

(** A central directory header written in the layout of the ZIP format is
    read back field by field, whatever follows it: the three strings come
    back in their order, an empty one as no string, and [length] is the
    number of bytes written. *)
Theorem central_header_round_trip
    (made_by needed flag method time date crc csize usize disk internal
     external offset : Z)
    (filename extra comment rest : bytes) :
  0 ≤ made_by < 65536 → 0 ≤ needed < 65536 → 0 ≤ flag < 65536 →
  0 ≤ method < 65536 → 0 ≤ time < 65536 → 0 ≤ date < 65536 →
  0 ≤ crc < 4294967296 → 0 ≤ csize < 4294967296 → 0 ≤ usize < 4294967296 →
  0 ≤ disk < 65536 → 0 ≤ internal < 65536 →
  0 ≤ external < 4294967296 → 0 ≤ offset < 4294967296 →
  len filename < 65536 → len extra < 65536 → len comment < 65536 →
  CentralDirectoryHeader.init
    (Sample.encode_central_header made_by needed flag method time date crc
       csize usize disk internal external offset filename extra comment
     ++ rest)
  = OK (CentralDirectoryHeader.mk sig_central_header made_by needed flag
          method time date crc csize usize (len filename) (len extra)
          (len comment) disk internal external offset
          (Sample.stored filename) (Sample.stored extra)
          (Sample.stored comment)
          (46 + len filename + len extra + len comment))
  ∧ len (Sample.encode_central_header made_by needed flag method time date
           crc csize usize disk internal external offset filename extra
           comment)
    = 46 + len filename + len extra + len comment.
Proof.
  intros Hmb Hn Hf Hm Ht Hd Hc Hcs Hus Hdk Hi He Ho Hfl Hefl Hcl.
  assert (0 ≤ len filename ∧ 0 ≤ len extra ∧ 0 ≤ len comment)
    as (Hfl0 & Hefl0 & Hcl0) by (unfold len; lia).
  split; [|unfold Sample.encode_central_header, len; rewrite !length_app; cbn; lia].
  set (data := _ ++ rest).
  set (fixed := sig_central_header ++ Sample.u16 made_by ++ Sample.u16 needed
                ++ Sample.u16 flag ++ Sample.u16 method ++ Sample.u16 time
                ++ Sample.u16 date ++ Sample.u32 crc ++ Sample.u32 csize
                ++ Sample.u32 usize ++ Sample.u16 (len filename)
                ++ Sample.u16 (len extra) ++ Sample.u16 (len comment)
                ++ Sample.u16 disk ++ Sample.u16 internal
                ++ Sample.u32 external ++ Sample.u32 offset).
  assert (data = fixed ++ filename ++ extra ++ comment ++ rest) as Hshape.
  { subst data fixed. unfold Sample.encode_central_header.
    by rewrite <- !app_assoc. }
  assert (len fixed = 46) as Hfixed by reflexivity.
  assert (46 ≤ len data) as H46.
  { rewrite Hshape. unfold len in *. rewrite length_app. lia. }
  unfold CentralDirectoryHeader.init.
  assert (slice data 0 4 = sig_central_header) as -> by reflexivity.
  rewrite bytes_eqb_refl. cbn [negb].
  rewrite !unpack_H_slice, !unpack_I_slice by lia. cbn [bind].
  assert (le_value (slice data 4 6) = made_by) as -> by exact (le_value_u16 _ Hmb).
  assert (le_value (slice data 6 8) = needed) as -> by exact (le_value_u16 _ Hn).
  assert (le_value (slice data 8 10) = flag) as -> by exact (le_value_u16 _ Hf).
  assert (le_value (slice data 10 12) = method) as -> by exact (le_value_u16 _ Hm).
  assert (le_value (slice data 12 14) = time) as -> by exact (le_value_u16 _ Ht).
  assert (le_value (slice data 14 16) = date) as -> by exact (le_value_u16 _ Hd).
  assert (le_value (slice data 16 20) = crc) as -> by exact (le_value_u32 _ Hc).
  assert (le_value (slice data 20 24) = csize) as -> by exact (le_value_u32 _ Hcs).
  assert (le_value (slice data 24 28) = usize) as -> by exact (le_value_u32 _ Hus).
  assert (le_value (slice data 28 30) = len filename) as ->
    by exact (le_value_u16 _ (conj Hfl0 Hfl)).
  assert (le_value (slice data 30 32) = len extra) as ->
    by exact (le_value_u16 _ (conj Hefl0 Hefl)).
  assert (le_value (slice data 32 34) = len comment) as ->
    by exact (le_value_u16 _ (conj Hcl0 Hcl)).
  assert (le_value (slice data 34 36) = disk) as -> by exact (le_value_u16 _ Hdk).
  assert (le_value (slice data 36 38) = internal) as -> by exact (le_value_u16 _ Hi).
  assert (le_value (slice data 38 42) = external) as -> by exact (le_value_u32 _ He).
  assert (le_value (slice data 42 46) = offset) as -> by exact (le_value_u32 _ Ho).
  rewrite Hshape.
  rewrite (stored_field_behind fixed filename (extra ++ comment ++ rest) 46 Hfixed).
  replace (fixed ++ filename ++ extra ++ comment ++ rest)
    with ((fixed ++ filename) ++ extra ++ comment ++ rest)
    by (by rewrite <- app_assoc).
  rewrite (stored_field_behind (fixed ++ filename) extra (comment ++ rest)
             (46 + len filename))
    by (unfold len in *; rewrite length_app; lia).
  replace ((fixed ++ filename) ++ extra ++ comment ++ rest)
    with (((fixed ++ filename) ++ extra) ++ comment ++ rest)
    by (by rewrite <- !app_assoc).
  rewrite (stored_field_behind ((fixed ++ filename) ++ extra) comment rest
             (46 + len filename + len extra))
    by (unfold len in *; rewrite !length_app; lia).
  reflexivity.
Qed.

Lemma central_header_round_trip_witness :
  ∃ h, CentralDirectoryHeader.init
         (Sample.encode_central_header 20 20 0 8 0 0 305419896 10 20 0 0 0 0
            Sample.name_a_txt [] [x68; x69] ++ Sample.overlay8) = OK h
     ∧ CentralDirectoryHeader.filename h = Some Sample.name_a_txt
     ∧ CentralDirectoryHeader.extra_field h = None
     ∧ CentralDirectoryHeader.comment h = Some [x68; x69]
     ∧ CentralDirectoryHeader.length h = 53.
Proof.
  eexists. split.
  - apply (central_header_round_trip 20 20 0 8 0 0 305419896 10 20 0 0 0 0
             Sample.name_a_txt [] [x68; x69] Sample.overlay8); by vm_compute.
  - by vm_compute.
Defined.

End RoundTrip.

(** ** The outcomes of the two directory parsers *)

Section DirectoryOutcomes.

(** [CentralDirectoryHeader] has two errors only, both decided by the first
    46 bytes: with the signature in place it succeeds whenever the fixed part
    is there, however long the strings are declared to be and however few
    bytes follow, and raises [struct.error] when the buffer is shorter. *)
Theorem central_header_outcomes (data : bytes) :
  slice data 0 4 = sig_central_header →
  (46 ≤ len data →
   ∃ h, CentralDirectoryHeader.init data = OK h
      ∧ CentralDirectoryHeader.length h =
          46 + le_value (slice data 28 30) + le_value (slice data 30 32)
          + le_value (slice data 32 34))
  ∧ (len data < 46 → CentralDirectoryHeader.init data = Raise StructError).
Proof.
  intros Hsig. split.
  - intros Hlen.
    destruct (central_header_complete data Hsig Hlen)
      as (h & Hh & Hfl & Hefl & Hcl & _).
    exists h. split; [done|].
    apply central_header_OK in Hh as (_ & _ & _ & _ & _ & ->). lia.
  - intros Hlen.
    destruct (CentralDirectoryHeader.init data) as [h|e] eqn:E.
    + apply central_header_inside in E. lia.
    + by apply central_header_Raise in E as [[_ Hne] | [-> _]].
Qed.

Lemma central_header_outcomes_witness :
  (∃ h, CentralDirectoryHeader.init (take 48 (Sample.central_header 0)) = OK h
      ∧ CentralDirectoryHeader.length h = 46 + 5 + 0 + 0)
  ∧ CentralDirectoryHeader.init (take 45 (Sample.central_header 0))
    = Raise StructError.
Proof.
  split.
  - apply (central_header_outcomes (take 48 (Sample.central_header 0)));
      [reflexivity | by vm_compute].
  - apply (central_header_outcomes (take 45 (Sample.central_header 0)));
      [reflexivity | by vm_compute].
Defined.

(** [CentralDirectoryEnd] with the signature in place: [struct.error] when
    fewer than the 22 bytes of the fixed part are there; otherwise a record
    of length 22 when the comment length is 0, and the [NameError] when it
    is not, whether or not the comment's bytes are in the buffer. *)
Theorem central_end_outcomes (data : bytes) :
  slice data 0 4 = sig_central_end →
  (len data < 22 → CentralDirectoryEnd.init data = Raise StructError)
  ∧ (22 ≤ len data → le_value (slice data 20 22) = 0 →
     ∃ e, CentralDirectoryEnd.init data = OK e
        ∧ CentralDirectoryEnd.zip_comment e = None
        ∧ CentralDirectoryEnd.length e = 22)
  ∧ (22 ≤ len data → le_value (slice data 20 22) ≠ 0 →
     CentralDirectoryEnd.init data = Raise (NameError "zip_comment_length")).
Proof.
  intros Hsig. split; [|split].
  - intros Hlen.
    destruct data as [|b0 [|b1 [|b2 [|b3 data]]]]; try discriminate Hsig.
    cbn in Hsig. injection Hsig as -> -> -> ->.
    unfold len in Hlen. simpl List.length in Hlen.
    do 18 (destruct data as [|? data]; [reflexivity|]).
    simpl List.length in Hlen. lia.
  - intros Hlen H0.
    destruct (central_end_no_comment data Hsig Hlen H0) as (e & He & _ & Hc & Hl).
    by exists e.
  - intros Hlen Hne. apply central_end_comment; [done | done |].
    pose proof (le_value_nonneg (slice data 20 22)). lia.
Qed.

Lemma central_end_outcomes_witness :
  CentralDirectoryEnd.init (take 21 (Sample.central_end 51 45 []))
  = Raise StructError
  ∧ (∃ e, CentralDirectoryEnd.init (Sample.central_end 51 45 []) = OK e
        ∧ CentralDirectoryEnd.zip_comment e = None
        ∧ CentralDirectoryEnd.length e = 22)
  ∧ CentralDirectoryEnd.init (take 22 (Sample.central_end 51 45 [x68; x69]))
    = Raise (NameError "zip_comment_length").
Proof.
  split; [|split].
  - apply (central_end_outcomes (take 21 (Sample.central_end 51 45 [])));
      [reflexivity | by vm_compute].
  - apply (central_end_outcomes (Sample.central_end 51 45 []));
      [reflexivity | by vm_compute | reflexivity].
  - apply (central_end_outcomes (take 22 (Sample.central_end 51 45 [x68; x69])));
      [reflexivity | by vm_compute | by vm_compute].
Defined.

End DirectoryOutcomes.
